(** * validate_versions.py: cross-checking pinned tool revisions

    A shallow embedding of [scripts/validate_versions.py] and the
    properties of its three stages (config parser, document scanner,
    reconciler) and of identity normalization.

    Text is modelled as [string]: a character is a code point below 256.
    A Python [dict] is an association list in insertion order. *)

From Stdlib Require Import String Ascii List Arith Bool Lia ZArith DecimalString.
Import ListNotations.
Local Open Scope list_scope.
Local Open Scope string_scope.

(** ** Characters *)

Definition LF : ascii := ascii_of_nat 10.
Definition CR : ascii := ascii_of_nat 13.

(** [str.isspace] on one code point; also the class [\s] of [re] and the
    characters removed by [str.strip()]. *)
Definition py_isspace (c : ascii) : bool :=
  let n := nat_of_ascii c in
  (((9 <=? n) && (n <=? 13)) || ((28 <=? n) && (n <=? 32))
   || (n =? 133) || (n =? 160))%nat.

(** The line boundaries of [str.splitlines] other than the pair CR LF. *)
Definition py_islinebreak (c : ascii) : bool :=
  let n := nat_of_ascii c in
  (((10 <=? n) && (n <=? 13)) || ((28 <=? n) && (n <=? 30)) || (n =? 133))%nat.

(** ** Python string operations *)

Module Py.

(** [s.lstrip()] *)
Fixpoint lstrip (s : string) : string :=
  match s with
  | EmptyString => EmptyString
  | String c s' => if py_isspace c then lstrip s' else s
  end.

(** [s.rstrip()] *)
Fixpoint rstrip (s : string) : string :=
  match s with
  | EmptyString => EmptyString
  | String c s' =>
      match rstrip s' with
      | EmptyString => if py_isspace c then EmptyString else String c EmptyString
      | r => String c r
      end
  end.

(** [s.strip()] *)
Definition strip (s : string) : string := rstrip (lstrip s).

(** [sub in s] *)
Fixpoint contains (sub s : string) : bool :=
  prefix sub s ||
  match s with
  | EmptyString => false
  | String _ s' => contains sub s'
  end.

(** [s.endswith(suf)] *)
Fixpoint endswith (s suf : string) : bool :=
  (s =? suf) ||
  match s with
  | EmptyString => false
  | String _ s' => endswith s' suf
  end.

(** [s.replace(old, new)] for a non-empty [old]: occurrences are taken
    left to right and do not overlap.  [skip] counts the characters of an
    occurrence that are still to be passed over. *)
Fixpoint replace_from (old new : string) (skip : nat) (s : string) : string :=
  match s with
  | EmptyString => EmptyString
  | String c s' =>
      match skip with
      | S k => replace_from old new k s'
      | O =>
          if prefix old s
          then new ++ replace_from old new (String.length old - 1) s'
          else String c (replace_from old new 0 s')
      end
  end.

Definition replace (old new s : string) : string := replace_from old new 0 s.

(** Puts a character in front of the piece that is being read. *)
Definition push_piece (c : ascii) (ps : list string) : list string :=
  match ps with
  | [] => [String c EmptyString]
  | p :: ps' => String c p :: ps'
  end.

(** [s.split(sep)] for a non-empty [sep]; the result is never empty. *)
Fixpoint split_from (sep : string) (skip : nat) (s : string) : list string :=
  match s with
  | EmptyString => [EmptyString]
  | String c s' =>
      match skip with
      | S k => split_from sep k s'
      | O =>
          if prefix sep s
          then EmptyString :: split_from sep (String.length sep - 1) s'
          else push_piece c (split_from sep 0 s')
      end
  end.

Definition split (sep s : string) : list string := split_from sep 0 s.

(** [l[-1]] on a list of strings that is known to be non-empty. *)
Definition last_piece (l : list string) : string := last l EmptyString.

(** [s.splitlines()] *)
Fixpoint splitlines (s : string) : list string :=
  match s with
  | EmptyString => []
  | String c s' =>
      if Ascii.eqb c CR then
        match s' with
        | String c' s'' =>
            if Ascii.eqb c' LF then EmptyString :: splitlines s''
            else EmptyString :: splitlines s'
        | EmptyString => [EmptyString]
        end
      else if py_islinebreak c then EmptyString :: splitlines s'
      else push_piece c (splitlines s')
  end.

(** Truthiness of a [str]. *)
Definition truthy (s : string) : bool :=
  match s with EmptyString => false | _ => true end.

(** Truthiness of a value that is a [str] or [None]. *)
Definition truthy_opt (o : option string) : bool :=
  match o with Some s => truthy s | None => false end.

End Py.

(** ** Identity normalization *)

(** [normalize_repo_url] *)
Definition normalize_repo_url (url : string) : string :=
  let url := Py.replace ".git" "" (Py.strip url) in
  if Py.contains "github.com/" url
  then Py.last_piece (Py.split "github.com/" url)
  else Py.last_piece (Py.split "/" url).

(** ** The fragment of [re] used by the script

    The three patterns of the script are sequences of literals, of
    repetitions of one character class (greedy or lazy) and of [$]; every
    capture group encloses exactly one repetition.  A match records the
    text taken by each item, so a group is read off by its position. *)

Module Re.

Inductive item : Type :=
| Lit (s : string)                                   (* literal text *)
| Rep (cls : ascii -> bool) (least : nat) (greedy : bool)
                                     (* cls* , cls+ , cls+? and the like *)
| Eos.                               (* $ without re.MULTILINE *)

Definition pattern := list item.

(** [\s], [.] and [[^\s]] *)
Definition space : ascii -> bool := py_isspace.
Definition dot (c : ascii) : bool := negb (Ascii.eqb c LF).
Definition nonspace (c : ascii) : bool := negb (py_isspace c).

(** Where [$] matches: at the end, or before a line feed that ends the text. *)
Definition at_end (s : string) : bool :=
  match s with
  | EmptyString => true
  | String c EmptyString => Ascii.eqb c LF
  | _ => false
  end.

(** [strip_prefix p s] is [Some r] when [s = p ++ r]. *)
Fixpoint strip_prefix (p s : string) : option string :=
  match p with
  | EmptyString => Some s
  | String a p' =>
      match s with
      | String b s' => if Ascii.eqb a b then strip_prefix p' s' else None
      | EmptyString => None
      end
  end.

(** The result of a match: the text of every item, and what is left. *)
Definition result : Type := list string * string.

Definition took (seg : string) (r : result) : result := (seg :: fst r, snd r).

Definition took_char (c : ascii) (r : result) : result :=
  match fst r with
  | seg :: segs => (String c seg :: segs, snd r)
  | [] => ([String c EmptyString], snd r)
  end.

(** One repetition, with the backtracking order of [re]: a greedy one tries
    a further character before it tries to stop, a lazy one the reverse.
    [k] matches the rest of the pattern. *)
Fixpoint rep (cls : ascii -> bool) (greedy : bool)
    (k : string -> option result) (least : nat) (s : string) : option result :=
  let stop :=
    match least with
    | O => option_map (took EmptyString) (k s)
    | S _ => None
    end in
  let more :=
    match s with
    | String c s' =>
        if cls c then option_map (took_char c) (rep cls greedy k (pred least) s')
        else None
    | EmptyString => None
    end in
  if greedy
  then match more with Some r => Some r | None => stop end
  else match stop with Some r => Some r | None => more end.

(** A match of the whole pattern at the start of [s]: [pattern.match(s)]. *)
Fixpoint match_here (p : pattern) (s : string) : option result :=
  match p with
  | [] => Some ([], s)
  | Lit l :: p' =>
      match strip_prefix l s with
      | Some s' => option_map (took l) (match_here p' s')
      | None => None
      end
  | Rep cls least greedy :: p' => rep cls greedy (match_here p') least s
  | Eos :: p' =>
      if at_end s then option_map (took EmptyString) (match_here p' s) else None
  end.

(** The text a match has taken. *)
Definition matched (segs : list string) : string :=
  fold_right append EmptyString segs.

(** [pattern.search(s)]: the match at the leftmost position that has one;
    the first component is the text before the match. *)
Fixpoint search (p : pattern) (s : string) : option (string * result) :=
  match match_here p s with
  | Some r => Some (EmptyString, r)
  | None =>
      match s with
      | EmptyString => None
      | String c s' =>
          option_map (fun x => (String c (fst x), snd x)) (search p s')
      end
  end.

(** [pattern.finditer(s)] for a pattern whose matches are never empty: a
    search resumes where the previous match ended.  [skip] counts the
    characters of the last match that are still to be passed over. *)
Fixpoint finditer_from (p : pattern) (skip : nat) (s : string) : list (list string) :=
  match s with
  | EmptyString => []
  | String _ s' =>
      match skip with
      | S k => finditer_from p k s'
      | O =>
          match match_here p s with
          | Some r => fst r :: finditer_from p (String.length (matched (fst r)) - 1) s'
          | None => finditer_from p 0 s'
          end
      end
  end.

Definition finditer (p : pattern) (s : string) : list (list string) :=
  finditer_from p 0 s.

(** [m.group(n)], for the group that encloses item [i] of the pattern. *)
Definition group (segs : list string) (i : nat) : string := nth i segs EmptyString.

End Re.

(** [r'repo:\s+(.+)$'] ; group 1 is item 2 *)
Definition repo_pattern : Re.pattern :=
  [Re.Lit "repo:"; Re.Rep Re.space 1 true; Re.Rep Re.dot 1 true; Re.Eos].

(** [r'rev:\s+([^\s]+)'] ; group 1 is item 2 *)
Definition rev_pattern : Re.pattern :=
  [Re.Lit "rev:"; Re.Rep Re.space 1 true; Re.Rep Re.nonspace 1 true].

(** [r'repo:\s+(.+?)\s*\n\s*rev:\s+([^\s]+)'] ; group 1 is item 2 and
    group 2 is item 8.  [re.MULTILINE] changes [^] and [$] only, and the
    pattern has neither. *)
Definition block_pattern : Re.pattern :=
  [Re.Lit "repo:"; Re.Rep Re.space 1 true; Re.Rep Re.dot 1 false;
   Re.Rep Re.space 0 true; Re.Lit (String LF EmptyString);
   Re.Rep Re.space 0 true; Re.Lit "rev:"; Re.Rep Re.space 1 true;
   Re.Rep Re.nonspace 1 true].

(** ** Python dictionaries from [str] to [str]

    Iteration follows insertion order; assigning to a key that is present
    keeps its place. *)

Module Dict.

Definition t : Type := list (string * string).

Definition empty : t := [].

(** [d.get(k)] *)
Fixpoint get (d : t) (k : string) : option string :=
  match d with
  | [] => None
  | (k', v) :: d' => if k' =? k then Some v else get d' k
  end.

(** [d[k] = v] *)
Fixpoint set (d : t) (k v : string) : t :=
  match d with
  | [] => [(k, v)]
  | (k', v') :: d' => if k' =? k then (k', v) :: d' else (k', v') :: set d' k v
  end.

(** [list(d)], the keys as [for k in d] meets them. *)
Definition keys (d : t) : list string := map fst d.

(** [d.values()] *)
Definition values (d : t) : list string := map snd d.

(** [not d] *)
Definition is_empty (d : t) : bool :=
  match d with [] => true | _ => false end.

End Dict.

(** ** Config parser *)

(** The variables of the loop of [parse_pre_commit_config]: [tools] and
    [current_repo]. *)
Definition parser_state : Type := Dict.t * option string.

(** One turn of [for line in lines]. *)
Definition parse_line (st : parser_state) (line : string) : parser_state :=
  let '(tools, current_repo) := st in
  let line := Py.strip line in
  match Re.search repo_pattern line with
  | Some repo_match =>
      (tools, Some (normalize_repo_url (Re.group (fst (snd repo_match)) 2)))
  | None =>
      match current_repo with
      | Some repo =>
          if Py.truthy repo then
            match Re.search rev_pattern line with
            | Some rev_match =>
                (Dict.set tools repo (Re.group (fst (snd rev_match)) 2), None)
            | None => st
            end
          else st
      | None => st
      end
  end.

Definition parse_lines (st : parser_state) (lines : list string) : parser_state :=
  fold_left parse_line lines st.

(** [parse_pre_commit_config] once the file has been read. *)
Definition parse_config_text (content : string) : Dict.t :=
  fst (parse_lines (Dict.empty, None) (Py.splitlines content)).

(** ** Document scanner *)

(** A usage: the file, relative to the project root, the identity and the
    revision. *)
Definition usage : Type := string * string * string.

Definition usage_of_match (md_file : string) (segs : list string) : usage :=
  let repo_url := Py.strip (Re.group segs 2) in
  let rev := Py.strip (Re.group segs 8) in
  (md_file, normalize_repo_url repo_url, rev).

(** The body of [for md_file in ...] in [scan_markdown_files]. *)
Definition scan_text (md_file content : string) : list usage :=
  map (usage_of_match md_file) (Re.finditer block_pattern content).

(** [scan_markdown_files], given the files that the glob enumerates, in
    its order, each with its text. *)
Definition scan_markdown_files (files : list (string * string)) : list usage :=
  flat_map (fun fc => scan_text (fst fc) (snd fc)) files.

(** ** Runs: standard output, [sys.exit] and uncaught exceptions *)

Inductive outcome (A : Type) : Type :=
| Returned (a : A)
| Exited (code : Z)
| Raised (exc : string).
Arguments Returned {A} a.
Arguments Exited {A} code.
Arguments Raised {A} exc.

(** A computation takes the lines printed so far and gives those printed
    when it ends. *)
Definition Run (A : Type) : Type := list string -> list string * outcome A.

Definition ret {A} (a : A) : Run A := fun out => (out, Returned a).

Definition bind {A B} (m : Run A) (f : A -> Run B) : Run B :=
  fun out =>
    match m out with
    | (out', Returned a) => f a out'
    | (out', Exited c) => (out', Exited c)
    | (out', Raised e) => (out', Raised e)
    end.

Notation "x <- m ;; f" := (bind m (fun x => f))
  (at level 61, m at next level, right associativity).
Notation "m ;;; f" := (bind m (fun _ => f))
  (at level 61, right associativity).

Definition print (line : string) : Run unit := fun out => ((out ++ [line])%list, Returned tt).
Definition sys_exit {A} (code : Z) : Run A := fun out => (out, Exited code).
Definition raise {A} (exc : string) : Run A := fun out => (out, Raised exc).

(** [for x in xs], with the variables of the loop in [acc]. *)
Fixpoint for_each {X S} (xs : list X) (acc : S) (body : S -> X -> Run S) : Run S :=
  match xs with
  | [] => ret acc
  | x :: xs' => acc' <- body acc x ;; for_each xs' acc' body
  end.

(** The exit status of the process. *)
Definition exit_status {A} (o : outcome A) : Z :=
  match o with
  | Returned _ => 0%Z
  | Exited c => c
  | Raised _ => 1%Z
  end.

(** [str(n)] for a length or a counter. *)
Definition str_of_nat (n : nat) : string := NilZero.string_of_uint (Nat.to_uint n).

(** ** Reconciler *)

(** The loop [for c_repo in canonical_versions] with its [break]. *)
Definition possible_match (canonical_versions : Dict.t) (repo_key : string)
  : option string :=
  find (fun c_repo => Py.endswith repo_key c_repo || Py.endswith c_repo repo_key)
       (Dict.keys canonical_versions).

(** The counters [errors] and [warnings]. *)
Definition counters : Type := nat * nat.

(** One turn of [for file_path, repo_key, rev in usage_matches]. *)
Definition reconcile_usage (canonical_versions : Dict.t) (cnt : counters) (u : usage)
  : Run counters :=
  let '(file_path, repo_key, rev) := u in
  let '(errors, warnings) := cnt in
  let canonical_rev := Dict.get canonical_versions repo_key in
  if Py.truthy_opt canonical_rev then
    let canonical_rev := match canonical_rev with Some v => v | None => "" end in
    if negb (rev =? canonical_rev) then
      print ("MISMATCH in " ++ file_path ++ ":") ;;;
      print ("  Tool: " ++ repo_key) ;;;
      print ("  Guide says:  " ++ rev) ;;;
      print ("  Config has:  " ++ canonical_rev) ;;;
      ret (errors + 1, warnings)
    else ret cnt
  else
    let possible_match := possible_match canonical_versions repo_key in
    if Py.truthy_opt possible_match then
      let possible_match := match possible_match with Some c => c | None => "" end in
      match Dict.get canonical_versions possible_match with
      | Some c_rev =>
          if negb (rev =? c_rev) then
            print ("MISMATCH (fuzzy match) in " ++ file_path ++ ":") ;;;
            print ("  Tool: " ++ repo_key ++ " (~= " ++ possible_match ++ ")") ;;;
            print ("  Guide says:  " ++ rev) ;;;
            print ("  Config has:  " ++ c_rev) ;;;
            ret (errors + 1, warnings)
          else ret cnt
      | None => raise "KeyError"
      end
    else ret (errors, warnings + 1).

(** [main] from [errors = 0] to its end: the loop and the summary. *)
Definition reconcile (canonical_versions : Dict.t) (usage_matches : list usage)
  : Run unit :=
  cnt <- for_each usage_matches (0, 0) (reconcile_usage canonical_versions) ;;
  let '(errors, warnings) := cnt in
  if (errors =? 0)%nat then
    print (String LF "SUCCESS: All guide versions match the canonical configuration.") ;;;
    if (0 <? warnings)%nat then
      print ("(Ignored " ++ str_of_nat warnings
             ++ " tools present in guides but not in config)")
    else ret tt
  else
    print (String LF "FAILURE: Found " ++ str_of_nat errors ++ " version mismatches.") ;;;
    sys_exit 1.

(** ** The whole run *)

(** What a run reads: the config file, if it exists, with its path as
    [print] shows it, and the [.md] files under the guides directory.  Each
    text is the one that [read_text()] has returned: a run in which a read
    fails is not described here. *)
Record world : Type := {
  config_path : string;
  config_file : option string;
  guide_files : list (string * string)
}.

(** [CONFIG_FILE.relative_to(PROJECT_ROOT)] *)
Definition CONFIG_FILE_REL : string := "configs/pre-commit/.pre-commit-config.yaml".

(** [parse_pre_commit_config] *)
Definition parse_pre_commit_config (w : world) : Run Dict.t :=
  match config_file w with
  | None =>
      print ("Error: Config file not found at " ++ config_path w) ;;;
      sys_exit 1
  | Some content => ret (parse_config_text content)
  end.

(** [main] *)
Definition main (w : world) : Run unit :=
  print ("Validating versions against " ++ CONFIG_FILE_REL ++ "...") ;;;
  canonical_versions <- parse_pre_commit_config w ;;
  if Dict.is_empty canonical_versions then
    print "No versions found in config file." ;;;
    sys_exit 1
  else
    print ("Loaded " ++ str_of_nat (List.length canonical_versions)
           ++ " canonical tool versions.") ;;;
    let usage_matches := scan_markdown_files (guide_files w) in
    print ("Found " ++ str_of_nat (List.length usage_matches)
           ++ " version references in guides.") ;;;
    reconcile canonical_versions usage_matches.

(** The process, started with nothing printed. *)
Definition run_main (w : world) : list string * Z :=
  let r := main w [] in (fst r, exit_status (snd r)).

(** * Vocabulary of the statements *)

(** ** Texts and tokens *)

(** Every character of [s] is in the class [cls]. *)
Fixpoint all_in (cls : ascii -> bool) (s : string) : bool :=
  match s with
  | EmptyString => true
  | String c s' => cls c && all_in cls s'
  end.

(** Non-empty and free of whitespace: what [[^\s]+] takes. *)
Definition is_token (s : string) : Prop :=
  s <> "" /\ all_in Re.nonspace s = true.

(** ** Matches of a pattern *)

Module ReSpec.
Import Re.

(** What one item may take. *)
Definition item_ok (i : item) (seg : string) : Prop :=
  match i with
  | Lit l => seg = l
  | Rep cls least _ => all_in cls seg = true /\ least <= String.length seg
  | Eos => seg = EmptyString
  end.

(** [segs] and [rest] split a text as the pattern asks: one segment per
    item, and [$] only where [at_end] allows it. *)
Fixpoint Matches (p : pattern) (segs : list string) (rest : string) : Prop :=
  match p, segs with
  | [], [] => True
  | i :: p', seg :: segs' =>
      item_ok i seg
      /\ match i with
         | Eos => at_end (matched segs' ++ rest) = true
         | _ => True
         end
      /\ Matches p' segs' rest
  | _, _ => False
  end.

(** [segs] comes before [segs'] in the order of backtracking: at the
    first item where they differ, a greedy repetition has taken more, or a
    lazy one less. *)
Fixpoint better (p : pattern) (segs segs' : list string) : Prop :=
  match p, segs, segs' with
  | i :: p', a :: l, a' :: l' =>
      (a = a' /\ better p' l l')
      \/ match i with
         | Rep _ _ true => String.length a' < String.length a
         | Rep _ _ false => String.length a < String.length a'
         | _ => False
         end
  | _, _, _ => False
  end.

(** The match of the pattern at the start of [t]. *)
Definition match_at (p : pattern) (t : string) (segs : list string) (rest : string)
  : Prop :=
  t = matched segs ++ rest /\ Matches p segs rest
  /\ forall segs' rest',
       t = matched segs' ++ rest' -> Matches p segs' rest' ->
       segs' = segs \/ better p segs segs'.

(** The pattern matches nowhere at the start of [t]. *)
Definition no_match_at (p : pattern) (t : string) : Prop :=
  forall segs rest, t = matched segs ++ rest -> ~ Matches p segs rest.

End ReSpec.

(** Every match of the pattern takes some text. *)
Definition never_empty (p : Re.pattern) : Prop :=
  forall segs rest, ReSpec.Matches p segs rest -> Re.matched segs <> "".

(** The matches of [p] in a text, from left to right and without overlap:
    each one is the match at the first position, after the end of the one
    before, where the pattern matches. *)
Inductive Occurrences (p : Re.pattern) : string -> list (list string) -> Prop :=
| Occ_none s :
    (forall pre t, s = pre ++ t -> ReSpec.no_match_at p t) ->
    Occurrences p s []
| Occ_next pre segs rest l :
    (forall a b, pre = a ++ b -> b <> "" ->
                 ReSpec.no_match_at p (b ++ Re.matched segs ++ rest)) ->
    ReSpec.match_at p (Re.matched segs ++ rest) segs rest ->
    Occurrences p rest l ->
    Occurrences p (pre ++ Re.matched segs ++ rest) (segs :: l).

(** ** Config parser *)

(** The identity that a line sets as pending, when [repo_match] is found. *)
Definition repo_line (line : string) : option string :=
  match Re.search repo_pattern (Py.strip line) with
  | Some repo_match => Some (normalize_repo_url (Re.group (fst (snd repo_match)) 2))
  | None => None
  end.

(** The token of [rev_match], when it is found. *)
Definition rev_token (line : string) : option string :=
  match Re.search rev_pattern (Py.strip line) with
  | Some rev_match => Some (Re.group (fst (snd rev_match)) 2)
  | None => None
  end.

(** What holds of [tools] and [current_repo] all along the loop. *)
Definition entry_ok (kv : string * string) : Prop :=
  fst kv <> "" /\ is_token (snd kv).

Definition tools_ok (tools : Dict.t) : Prop :=
  NoDup (Dict.keys tools) /\ Forall entry_ok tools.

(** ** Document scanner *)

(** The segments of a match of [block_pattern]: the marker [repo:], one or
    more whitespace characters, a value of one or more characters other than
    a line feed, whitespace with a line feed in it ([gap1], the line feed,
    [gap2]), the marker [rev:], one or more whitespace characters and a
    token. *)
Definition is_block (segs : list string) : Prop :=
  exists ws1 value gap1 gap2 ws2 token,
    segs = ["repo:"; ws1; value; gap1; String LF ""; gap2; "rev:"; ws2; token]
    /\ (all_in Re.space ws1 = true /\ ws1 <> "")
    /\ (all_in Re.dot value = true /\ value <> "")
    /\ all_in Re.space gap1 = true
    /\ all_in Re.space gap2 = true
    /\ (all_in Re.space ws2 = true /\ ws2 <> "")
    /\ is_token token.

(** The usage that the scanner makes of a match. *)
Definition usage_of_block (md_file : string) (segs : list string) : usage :=
  (md_file, normalize_repo_url (Py.strip (Re.group segs 2)), Re.group segs 8).

(** *** The scanner as the specification words it: a two-line block *)

Module TwoLine.

(** Whitespace that stays on the line. *)
Definition hspace (c : ascii) : bool := py_isspace c && negb (Ascii.eqb c LF).

(** A repository line, its line break, and at once a revision line that
    may start with whitespace. *)
Definition two_line_pattern : Re.pattern :=
  [Re.Lit "repo:"; Re.Rep hspace 1 true; Re.Rep Re.dot 1 false;
   Re.Rep hspace 0 true; Re.Lit (String LF EmptyString);
   Re.Rep hspace 0 true; Re.Lit "rev:"; Re.Rep hspace 1 true;
   Re.Rep Re.nonspace 1 true].

Definition scan_text (md_file content : string) : list usage :=
  map (usage_of_match md_file) (Re.finditer two_line_pattern content).

End TwoLine.

(** ** Reconciler *)

(** [suf] is a suffix of [s]. *)
Definition is_suffix (suf s : string) : Prop := exists p, s = p ++ suf.

(** The relation of the fuzzy fallback: one identity ends with the other. *)
Definition suffix_related (repo_key c_repo : string) : Prop :=
  is_suffix c_repo repo_key \/ is_suffix repo_key c_repo.

(** [c] is the first of [l] that satisfies [P]. *)
Definition first_such {A} (P : A -> Prop) (l : list A) (c : A) : Prop :=
  exists pre post, l = (pre ++ c :: post)%list /\ P c /\ forall x, In x pre -> ~ P x.

(** Whether the [else] branch, with the fuzzy fallback, is taken. *)
Definition fuzzy_attempted (canonical_versions : Dict.t) (repo_key : string) : bool :=
  negb (Py.truthy_opt (Dict.get canonical_versions repo_key)).

(** The canonical revision that a usage is compared with: the one of its
    identity, or else the one of the fuzzy candidate. *)
Definition resolved_revision (canonical_versions : Dict.t) (repo_key : string)
  : option string :=
  match Dict.get canonical_versions repo_key with
  | Some v => Some v
  | None =>
      match possible_match canonical_versions repo_key with
      | Some c_repo => Dict.get canonical_versions c_repo
      | None => None
      end
  end.

(** The four lines of a diagnostic. *)
Definition exact_diagnostic (file_path repo_key rev canonical_rev : string)
  : list string :=
  ["MISMATCH in " ++ file_path ++ ":";
   "  Tool: " ++ repo_key;
   "  Guide says:  " ++ rev;
   "  Config has:  " ++ canonical_rev].

Definition fuzzy_diagnostic (file_path repo_key c_repo rev c_rev : string)
  : list string :=
  ["MISMATCH (fuzzy match) in " ++ file_path ++ ":";
   "  Tool: " ++ repo_key ++ " (~= " ++ c_repo ++ ")";
   "  Guide says:  " ++ rev;
   "  Config has:  " ++ c_rev].

(** A usage whose revision differs from the resolved one. *)
Definition mismatched (canonical_versions : Dict.t) (u : usage) : bool :=
  let '(_, repo_key, rev) := u in
  match resolved_revision canonical_versions repo_key with
  | Some v => negb (rev =? v)
  | None => false
  end.

(** A usage with no canonical revision, exact or fuzzy. *)
Definition unresolved (canonical_versions : Dict.t) (u : usage) : bool :=
  let '(_, repo_key, _) := u in
  match resolved_revision canonical_versions repo_key with
  | Some _ => false
  | None => true
  end.

(** What the loop prints for one usage. *)
Definition diagnostic (canonical_versions : Dict.t) (u : usage) : list string :=
  let '(file_path, repo_key, rev) := u in
  match Dict.get canonical_versions repo_key with
  | Some v => if rev =? v then [] else exact_diagnostic file_path repo_key rev v
  | None =>
      match possible_match canonical_versions repo_key with
      | Some c_repo =>
          match Dict.get canonical_versions c_repo with
          | Some c_rev =>
              if rev =? c_rev then []
              else fuzzy_diagnostic file_path repo_key c_repo rev c_rev
          | None => []
          end
      | None => []
      end
  end.

Definition success_line : string :=
  String LF "SUCCESS: All guide versions match the canonical configuration.".

Definition ignored_line (warnings : nat) : string :=
  "(Ignored " ++ str_of_nat warnings ++ " tools present in guides but not in config)".

Definition failure_line (errors : nat) : string :=
  String LF "FAILURE: Found " ++ str_of_nat errors ++ " version mismatches.".

(** ** Identity normalization as the specification words it *)

Module Reference.

(** Strips a trailing [.git], and a trailing one only. *)
Definition strip_vcs_suffix (s : string) : string :=
  if Py.endswith s ".git"
  then substring 0 (String.length s - 4) s
  else s.

(** Everything after the marker, when the marker is present. *)
Fixpoint after_marker (marker s : string) : option string :=
  match Re.strip_prefix marker s with
  | Some r => Some r
  | None =>
      match s with
      | EmptyString => None
      | String _ s' => after_marker marker s'
      end
  end.

(** The text after the last separator; the whole text when it has none. *)
Fixpoint after_last_separator (s : string) : option string :=
  match s with
  | EmptyString => None
  | String c s' =>
      match after_last_separator s' with
      | Some r => Some r
      | None => if Ascii.eqb c "/" then Some s' else None
      end
  end.

Definition final_segment (s : string) : string :=
  match after_last_separator s with Some r => r | None => s end.

Definition normalize (raw : string) : string :=
  let r := strip_vcs_suffix raw in
  match after_marker "github.com/" r with
  | Some rest => rest
  | None => final_segment r
  end.

End Reference.

(** ** Sample texts *)

Definition black_config : string :=
  "- repo: https://github.com/psf/black" ++ String LF "  rev: 24.4.0".

Definition two_revs_config : string :=
  "- repo: https://github.com/psf/black" ++ String LF ("  rev: 24.4.0" ++ String LF "  rev: 9.9.9").

Definition dangling_config : string :=
  "- repo: https://github.com/psf/black" ++ String LF
  ("  hooks:" ++ String LF
  ("- repo: https://github.com/pycqa/flake8" ++ String LF "  rev: 7.0.0")).

Definition repeated_config : string :=
  "- repo: https://github.com/psf/black" ++ String LF
  ("  rev: 23.1.0" ++ String LF
  ("- repo: https://github.com/pycqa/flake8" ++ String LF
  ("  rev: 7.0.0" ++ String LF
  ("- repo: https://github.com/psf/black.git" ++ String LF "  rev: 24.4.0")))).

Definition black_url : string := "https://github.com/psf/black".

Definition pages_url : string := "https://github.com/user/my.github.io".

Definition empty_identity_config : string :=
  "- repo: https://github.com/" ++ String LF ("  rev: 1.0" ++ String LF "  rev: 2.0").

Definition repeated_empty_config : string :=
  "- repo: https://gitlab.com/pycqa/flake8/" ++ String LF
  ("  rev: 6.0.0" ++ String LF
  ("- repo: https://gitlab.com/pycqa/flake8/" ++ String LF "  rev: 7.0.0")).

Definition spaced_repeated_config : string :=
  "- repo: https://github.com/psf/black" ++ String LF
  ("  rev: 23.1.0" ++ String LF
  ("- repo: https://github.com/psf/black.git" ++ String LF
  ("  # pinned by hand" ++ String LF
  ("  rev: 24.4.0" ++ String LF "  hooks:")))).

Definition blank_line_text : string :=
  "repo: x" ++ String LF (String LF "rev: 1").

(** ** Further vocabulary: entries, blocks and reports *)

(** A character other than the [r] that starts both markers. *)
Definition not_r (c : ascii) : bool := negb (Ascii.eqb c "r").

(** The segments of the leftmost match, without its position. *)
Definition found (p : Re.pattern) (s : string) : option (list string) :=
  option_map (fun x => fst (snd x)) (Re.search p s).

(** Both patterns of the parser start with a literal [r]. *)
Definition starts_with_r (p : Re.pattern) : Prop :=
  forall c s, not_r c = true -> Re.match_here p (String c s) = None.

(** A repository line as a config has it: some text without [r], the
    marker, whitespace, and a value that is on one line and has no
    whitespace at its ends. *)
Definition repo_entry_line (line value : string) : Prop :=
  exists pre ws,
    line = pre ++ "repo:" ++ ws ++ value
    /\ all_in not_r pre = true
    /\ all_in Re.space ws = true /\ ws <> ""
    /\ value <> "" /\ all_in Re.dot value = true /\ Py.strip value = value.

(** A revision line: some text without [r], the marker, whitespace, the
    token, and then nothing or a text that starts with whitespace and does
    not end with it; the line holds no [repo:]. *)
Definition rev_entry_line (line tok : string) : Prop :=
  exists pre ws trailing,
    line = pre ++ "rev:" ++ ws ++ tok ++ trailing
    /\ all_in not_r pre = true
    /\ all_in Re.space ws = true /\ ws <> ""
    /\ is_token tok
    /\ (trailing = ""
        \/ exists c t, trailing = String c t /\ py_isspace c = true)
    /\ Py.rstrip trailing = trailing
    /\ Py.contains "repo:" line = false.

(** The first line of every run. *)
Definition banner_line : string :=
  "Validating versions against " ++ CONFIG_FILE_REL ++ "...".

Definition loaded_line (n : nat) : string :=
  "Loaded " ++ str_of_nat n ++ " canonical tool versions.".

Definition found_line (n : nat) : string :=
  "Found " ++ str_of_nat n ++ " version references in guides.".

(** The summary that ends a run that has reached the reconciler. *)
Definition summary (errors warnings : nat) : list string :=
  if (errors =? 0)%nat
  then success_line :: (if (0 <? warnings)%nat then [ignored_line warnings] else [])
  else [failure_line errors].

Definition sample_world : world :=
  {| config_path := "/p/configs/pre-commit/.pre-commit-config.yaml";
     config_file := Some black_config;
     guide_files :=
       [("guides/a.md", "repo: https://github.com/psf/black" ++ String LF "rev: 24.3.0");
        ("guides/b.md", "repo: https://example.org/mypy" ++ String LF "rev: 1.0")] |}.

(** A block as a guide quotes it: some text without [r], the marker
    [repo:], whitespace, a value on one line without whitespace at its
    ends, a line feed, an indentation, the marker [rev:], whitespace and a
    token that ends the text. *)
Definition guide_block_text (text value tok : string) : Prop :=
  exists pre ws1 ind ws2,
    text = pre ++ "repo:" ++ ws1 ++ value ++ String LF (ind ++ "rev:" ++ ws2 ++ tok)
    /\ all_in not_r pre = true
    /\ (all_in Re.space ws1 = true /\ ws1 <> "")
    /\ (value <> "" /\ all_in Re.dot value = true /\ Py.strip value = value)
    /\ (all_in Re.space ind = true /\ all_in Re.dot ind = true)
    /\ (all_in Re.space ws2 = true /\ ws2 <> "")
    /\ is_token tok.

(** A character that [splitlines] keeps inside a line. *)
Definition no_break (c : ascii) : bool := negb (py_islinebreak c).

(** An entry as a config has it: a repository line, a line feed and a
    revision line, each of them one line. *)
Definition config_entry_text (text value tok : string) : Prop :=
  exists l_repo l_rev,
    text = l_repo ++ String LF l_rev
    /\ repo_entry_line l_repo value
    /\ rev_entry_line l_rev tok
    /\ all_in no_break l_repo = true
    /\ all_in no_break l_rev = true.

Definition quoted_block : string :=
  "    - repo:  https://github.com/psf/black" ++ String LF "      rev: 24.4.0".

Definition commented_entry : string :=
  "# - repo: https://github.com/psf/black" ++ String LF "#   rev: 24.4.0  # frozen".

(** * Properties *)

(** ** The model on small inputs *)

Module Examples.

Example normalize_black :
  normalize_repo_url "https://github.com/psf/black" = "psf/black".
Proof. reflexivity. Qed.

Example normalize_git_suffix :
  normalize_repo_url " git@github.com:psf/black.git " = "black".
Proof. reflexivity. Qed.

Example normalize_local :
  normalize_repo_url "local" = "local".
Proof. reflexivity. Qed.

Example split_ex : Py.split "/" "a//b/" = ["a"; ""; "b"; ""].
Proof. reflexivity. Qed.

Example splitlines_ex :
  Py.splitlines ("a" ++ String LF (String LF ("b" ++ String CR (String LF "c" ++ String LF ""))))
  = ["a"; ""; "b"; "c"].
Proof. reflexivity. Qed.

Example search_repo_ex :
  Re.search repo_pattern "# - repo: https://github.com/psf/black"
  = Some ("# - ", (["repo:"; " "; "https://github.com/psf/black"; ""], "")).
Proof. reflexivity. Qed.

Example search_rev_ex :
  Re.search rev_pattern "rev:  24.4.0 # pinned"
  = Some ("", (["rev:"; "  "; "24.4.0"], " # pinned")).
Proof. reflexivity. Qed.

Example finditer_block_ex :
  Re.finditer block_pattern
    ("repo: a/b  " ++ String LF ("  rev: 1.0" ++ String LF ("repo: c" ++ String LF "rev: 2 repo: d")))
  = [ ["repo:"; " "; "a/b"; "  "; String LF ""; "  "; "rev:"; " "; "1.0"];
      ["repo:"; " "; "c"; ""; String LF ""; ""; "rev:"; " "; "2"] ].
Proof. reflexivity. Qed.

Example parse_black : parse_config_text black_config = [("psf/black", "24.4.0")].
Proof. reflexivity. Qed.

Example run_mismatch :
  run_main {| config_path := "/p/configs/pre-commit/.pre-commit-config.yaml";
              config_file := Some black_config;
              guide_files := [("guides/a.md",
                 "repo: https://github.com/psf/black" ++ String LF "rev: 24.3.0")] |}
  = (["Validating versions against configs/pre-commit/.pre-commit-config.yaml...";
      "Loaded 1 canonical tool versions.";
      "Found 1 version references in guides.";
      "MISMATCH in guides/a.md:";
      "  Tool: psf/black";
      "  Guide says:  24.3.0";
      "  Config has:  24.4.0";
      String LF "FAILURE: Found 1 version mismatches."], 1%Z).
Proof. vm_compute. reflexivity. Qed.

End Examples.

(** ** Strings *)

Section StringFacts.

Lemma append_nil_r (s : string) : s ++ "" = s.
Proof. induction s as [|c s IH]; simpl; [reflexivity | now rewrite IH]. Qed.

Lemma append_assoc (a b c : string) : (a ++ b) ++ c = a ++ (b ++ c).
Proof. induction a as [|x a IH]; simpl; [reflexivity | now rewrite IH]. Qed.

Lemma length_append (a b : string) :
  String.length (a ++ b) = String.length a + String.length b.
Proof. induction a as [|x a IH]; simpl; [reflexivity | now rewrite IH]. Qed.

End StringFacts.

(** ** The matcher takes what the pattern describes *)

Module ReFacts.
Import Re ReSpec.

Lemma strip_prefix_sound p : forall s r, strip_prefix p s = Some r -> s = p ++ r.
Proof.
  induction p as [|a p IH]; intros s r H; simpl in *.
  - now inversion H.
  - destruct s as [|b s]; [discriminate|].
    destruct (Ascii.eqb a b) eqn:E; [|discriminate].
    apply Ascii.eqb_eq in E. subst b. simpl. f_equal. now apply IH.
Qed.

Lemma strip_prefix_complete p r : strip_prefix p (p ++ r) = Some r.
Proof.
  induction p as [|a p IH]; simpl; [reflexivity|].
  now rewrite Ascii.eqb_refl.
Qed.

Lemma option_map_some {A B} (f : A -> B) o b :
  option_map f o = Some b -> exists a, o = Some a /\ b = f a.
Proof. destruct o; simpl; intros H; inversion H; eauto. Qed.

(** A repetition takes a run of its class, at least [least] long, and
    hands the rest to the continuation. *)
Lemma rep_sound cls greedy k : forall s least r,
  rep cls greedy k least s = Some r ->
  exists seg rest r0,
    s = seg ++ rest /\ all_in cls seg = true /\ least <= String.length seg /\
    k rest = Some r0 /\ r = took seg r0.
Proof.
  induction s as [|c s IH]; intros least r H.
  - simpl in H.
    assert (Hs : match least with
                 | O => option_map (took "") (k "")
                 | S _ => None end = Some r)
      by (destruct greedy; [exact H | destruct least; [|discriminate];
          destruct (option_map (took "") (k "")); [exact H | discriminate]]).
    destruct least; [|discriminate].
    apply option_map_some in Hs as (r0 & Hk & ->).
    exists "", "", r0. simpl. repeat split; auto.
  - simpl in H.
    set (stop := match least with
                 | O => option_map (took "") (k (String c s))
                 | S _ => None end) in H.
    set (more := if cls c
                 then option_map (took_char c) (rep cls greedy k (pred least) s)
                 else None) in H.
    assert (Hor : more = Some r \/ stop = Some r).
    { destruct greedy; destruct more, stop; inversion H; auto. }
    clear H. destruct Hor as [Hm | Hs].
    + subst more. destruct (cls c) eqn:Ec; [|discriminate].
      apply option_map_some in Hm as (r1 & Hrep & ->).
      apply IH in Hrep as (seg & rest & r0 & -> & Hall & Hlen & Hk & ->).
      exists (String c seg), rest, r0. simpl. rewrite Ec, Hall.
      repeat split; auto. lia.
    + subst stop. destruct least; [|discriminate].
      apply option_map_some in Hs as (r0 & Hk & ->).
      exists "", (String c s), r0. simpl. repeat split; auto.
Qed.

(** A match splits the text into one segment per item and a rest. *)
Theorem match_here_sound p : forall s r,
  match_here p s = Some r ->
  Forall2 item_ok p (fst r) /\ s = matched (fst r) ++ snd r.
Proof.
  induction p as [|i p IH]; intros s r H; simpl in H.
  - inversion H; subst. simpl. split; [constructor | reflexivity].
  - destruct i as [l | cls least greedy |].
    + destruct (strip_prefix l s) as [s'|] eqn:E; [|discriminate].
      apply option_map_some in H as (r0 & Hm & ->).
      apply strip_prefix_sound in E. apply IH in Hm as [HF Hs].
      simpl. split; [constructor; [reflexivity | exact HF]|].
      rewrite append_assoc, <- Hs. exact E.
    + apply rep_sound in H as (seg & rest & r0 & -> & Hall & Hlen & Hk & ->).
      apply IH in Hk as [HF Hs]. simpl.
      split; [constructor; [split; assumption | exact HF]|].
      rewrite append_assoc, <- Hs. reflexivity.
    + destruct (at_end s); [|discriminate].
      apply option_map_some in H as (r0 & Hm & ->).
      apply IH in Hm as [HF Hs]. simpl.
      split; [constructor; [reflexivity | exact HF] | exact Hs].
Qed.

Lemma search_sound p : forall s pre r,
  search p s = Some (pre, r) ->
  exists t, s = pre ++ t /\ match_here p t = Some r.
Proof.
  induction s as [|c s IH]; intros pre r H; simpl in H.
  - destruct (match_here p "") eqn:E; [|discriminate].
    inversion H; subst. exists "". split; [reflexivity | exact E].
  - destruct (match_here p (String c s)) eqn:E.
    + inversion H; subst. exists (String c s). split; [reflexivity | exact E].
    + apply option_map_some in H as ([pre' r'] & Hs & Heq).
      inversion Heq; subst. apply IH in Hs as (t & -> & Hm).
      exists t. split; [reflexivity | exact Hm].
Qed.

(** The segments of the matches that [finditer] gives are matches. *)
Lemma finditer_from_sound p : forall s skip segs,
  In segs (finditer_from p skip s) ->
  exists t rest, match_here p t = Some (segs, rest).
Proof.
  induction s as [|c s IH]; intros skip segs H; simpl in H; [contradiction|].
  destruct skip as [|k]; [|now apply IH in H].
  destruct (match_here p (String c s)) as [[sg rest]|] eqn:E.
  - destruct H as [<- | H]; [now exists (String c s), rest | now apply IH in H].
  - now apply IH in H.
Qed.

End ReFacts.

(** ** Dictionaries *)

Module DictFacts.
Import Dict.

Lemma get_set_same d : forall k v, get (set d k v) k = Some v.
Proof.
  induction d as [|[k' v'] d IH]; intros k v; simpl.
  - now rewrite String.eqb_refl.
  - destruct (k' =? k) eqn:E; simpl; rewrite E; [reflexivity | apply IH].
Qed.

Lemma get_set_other d : forall k v k', k' <> k -> get (set d k v) k' = get d k'.
Proof.
  induction d as [|[k0 v0] d IH]; intros k v k' Hne; simpl.
  - destruct (k =? k') eqn:E; [|reflexivity].
    apply String.eqb_eq in E. congruence.
  - destruct (k0 =? k) eqn:E; simpl.
    + apply String.eqb_eq in E. subst k0.
      destruct (k =? k') eqn:E'; [|reflexivity].
      apply String.eqb_eq in E'. congruence.
    + destruct (k0 =? k'); [reflexivity | now apply IH].
Qed.

Lemma get_none_iff d k : get d k = None <-> ~ In k (keys d).
Proof.
  induction d as [|[k' v'] d IH]; simpl; [tauto|].
  destruct (k' =? k) eqn:E.
  - apply String.eqb_eq in E. split; [discriminate | intros H; exfalso; auto].
  - apply String.eqb_neq in E. rewrite IH. tauto.
Qed.

Lemma get_some_in d k v : get d k = Some v -> In (k, v) d.
Proof.
  induction d as [|[k' v'] d IH]; simpl; [discriminate|].
  destruct (k' =? k) eqn:E.
  - apply String.eqb_eq in E. intros H; inversion H; subst. now left.
  - intros H. right. now apply IH.
Qed.

Lemma in_keys_get d k : In k (keys d) -> exists v, get d k = Some v.
Proof.
  intros H. destruct (get d k) as [v|] eqn:E; [now exists v|].
  apply get_none_iff in E. contradiction.
Qed.

Lemma in_set d : forall k v a b,
  In (a, b) (set d k v) -> (a = k /\ b = v) \/ In (a, b) d.
Proof.
  induction d as [|[k' v'] d IH]; intros k v a b H; simpl in H.
  - destruct H as [H|[]]. inversion H; auto.
  - destruct (k' =? k) eqn:E.
    + apply String.eqb_eq in E. subst k'.
      destruct H as [H|H]; [inversion H; auto | right; now right].
    + destruct H as [H|H]; [right; now left|].
      apply IH in H as [H|H]; [now left | right; now right].
Qed.

Lemma keys_set_in d : forall k v, In k (keys d) -> keys (set d k v) = keys d.
Proof.
  induction d as [|[k' v'] d IH]; intros k v H; simpl in *; [contradiction|].
  destruct (k' =? k) eqn:E; simpl; [reflexivity|].
  apply String.eqb_neq in E. destruct H as [H|H]; [contradiction|].
  f_equal. now apply IH.
Qed.

Lemma keys_set_notin d : forall k v,
  ~ In k (keys d) -> keys (set d k v) = (keys d ++ [k])%list.
Proof.
  induction d as [|[k' v'] d IH]; intros k v H; simpl in *; [reflexivity|].
  destruct (k' =? k) eqn:E.
  - apply String.eqb_eq in E. exfalso; auto.
  - simpl. f_equal. apply IH. tauto.
Qed.

(** Assignment keeps the keys distinct. *)
Lemma nodup_keys_set d k v : NoDup (keys d) -> NoDup (keys (set d k v)).
Proof.
  intros H. destruct (in_dec string_dec k (keys d)) as [Hin|Hnin].
  - now rewrite keys_set_in.
  - rewrite keys_set_notin by assumption.
    apply NoDup_app; [assumption | repeat constructor; auto |].
    intros x Hx [<-|[]]. contradiction.
Qed.

Lemma in_keys_set d k v : In k (keys (set d k v)).
Proof.
  destruct (in_dec string_dec k (keys d)) as [Hin|Hnin].
  - now rewrite keys_set_in.
  - rewrite keys_set_notin by assumption. apply in_or_app. right. now left.
Qed.

End DictFacts.

(** ** Config parser *)

Module ParserFacts.

Arguments parse_line : simpl never.

(** [parse_line] by cases on what the line is. *)
Lemma parse_line_eq tools current_repo line :
  parse_line (tools, current_repo) line =
  match repo_line line with
  | Some k => (tools, Some k)
  | None =>
      match current_repo, rev_token line with
      | Some repo, Some rev =>
          if Py.truthy repo then (Dict.set tools repo rev, None)
          else (tools, current_repo)
      | _, _ => (tools, current_repo)
      end
  end.
Proof.
  unfold parse_line, repo_line, rev_token.
  destruct (Re.search repo_pattern (Py.strip line)); [reflexivity|].
  destruct current_repo as [repo|]; [|reflexivity].
  destruct (Py.truthy repo);
    destruct (Re.search rev_pattern (Py.strip line)); reflexivity.
Qed.

Lemma parse_lines_app st l1 l2 :
  parse_lines st (l1 ++ l2) = parse_lines (parse_lines st l1) l2.
Proof. unfold parse_lines. apply fold_left_app. Qed.

Lemma truthy_ne s : Py.truthy s = true <-> s <> "".
Proof. destruct s; simpl; split; congruence. Qed.

(** The token of a revision line is non-empty and has no whitespace. *)
Lemma rev_token_is_token line r : rev_token line = Some r -> is_token r.
Proof.
  unfold rev_token. intros H.
  destruct (Re.search rev_pattern (Py.strip line)) as [[pre res]|] eqn:E;
    [|discriminate].
  inversion H; subst r; clear H.
  apply ReFacts.search_sound in E as (t & _ & Hm).
  apply ReFacts.match_here_sound in Hm as [HF _].
  unfold rev_pattern in HF.
  inversion HF as [|? s0 ? l0 _ HF1]; subst.
  inversion HF1 as [|? s1 ? l1 _ HF2]; subst.
  inversion HF2 as [|? s2 ? l2 Hok HF3]; subst.
  destruct Hok as [Hall Hlen].
  simpl. unfold Re.group. simpl. split; [|exact Hall].
  intros ->. simpl in Hlen. lia.
Qed.

Lemma tools_ok_set tools k v :
  tools_ok tools -> k <> "" -> is_token v -> tools_ok (Dict.set tools k v).
Proof.
  intros [Hnd Hall] Hk Hv. split; [now apply DictFacts.nodup_keys_set|].
  apply Forall_forall. intros [a b] Hin.
  apply DictFacts.in_set in Hin as [[-> ->]|Hin]; [split; assumption|].
  rewrite Forall_forall in Hall. now apply Hall.
Qed.

Lemma parse_line_ok tools cur line :
  tools_ok tools -> tools_ok (fst (parse_line (tools, cur) line)).
Proof.
  intros H. rewrite parse_line_eq.
  destruct (repo_line line); [exact H|].
  destruct cur as [repo|]; [|exact H].
  destruct (rev_token line) as [rev|] eqn:Er; [|exact H].
  destruct (Py.truthy repo) eqn:Et; [|exact H].
  simpl. apply tools_ok_set; [exact H | now apply truthy_ne |].
  now apply rev_token_is_token in Er.
Qed.

Lemma parse_lines_ok lines : forall st,
  tools_ok (fst st) -> tools_ok (fst (parse_lines st lines)).
Proof.
  induction lines as [|l lines IH]; intros [tools cur] H; [exact H|].
  simpl. apply IH. now apply parse_line_ok.
Qed.

(** Every map that the parser builds has distinct, non-empty keys and
    tokens as values. *)
Lemma parse_config_text_ok content : tools_ok (parse_config_text content).
Proof.
  unfold parse_config_text. apply parse_lines_ok.
  split; [constructor | constructor].
Qed.

Lemma repo_then_rev tools cur l1 l2 k r :
  repo_line l1 = Some k -> repo_line l2 = None -> rev_token l2 = Some r ->
  parse_lines (tools, cur) [l1; l2] =
  if Py.truthy k then (Dict.set tools k r, None) else (tools, Some k).
Proof.
  intros H1 H2 H3. simpl. rewrite (parse_line_eq _ _ l1), H1.
  rewrite parse_line_eq, H2, H3. reflexivity.
Qed.

End ParserFacts.

Module ParserClaims.
Import ParserFacts.

(** A reference that normalizes to the empty identity, with two revision
    lines after it: the first revision is not bound, and the map stays
    empty. *)
Lemma empty_identity_binds_nothing :
  Py.splitlines empty_identity_config
  = ["- repo: https://github.com/"; "  rev: 1.0"; "  rev: 2.0"]
  /\ repo_line "- repo: https://github.com/" = Some ""
  /\ (repo_line "  rev: 1.0" = None /\ rev_token "  rev: 1.0" = Some "1.0")
  /\ (repo_line "  rev: 2.0" = None /\ rev_token "  rev: 2.0" = Some "2.0")
  /\ parse_config_text empty_identity_config = Dict.empty
  /\ Dict.get (parse_config_text empty_identity_config) "" <> Some "1.0".
Proof. vm_compute. repeat split; try reflexivity. discriminate. Qed.

(** C6, amended. A turn of the loop changes the map only when a non-empty
    pending identity is set and the line is a revision line; it then binds
    the token to that identity and clears it.  So in any config text a
    repository line followed by two revision lines binds the first
    revision only, and only when the identity of the reference is not
    empty; with the empty identity nothing is bound and it stays pending.
    In both cases the second revision line changes nothing. *)
Theorem config_rev_binds_pending_once :
  (forall tools cur line,
     fst (parse_line (tools, cur) line) <> tools ->
     exists repo rev,
       cur = Some repo /\ repo <> "" /\
       repo_line line = None /\ rev_token line = Some rev /\
       parse_line (tools, cur) line = (Dict.set tools repo rev, None))
  /\
  (forall content pre post l1 l2 l3 k r2 r3,
     Py.splitlines content = (pre ++ l1 :: l2 :: l3 :: post)%list ->
     repo_line l1 = Some k ->
     repo_line l2 = None -> rev_token l2 = Some r2 ->
     repo_line l3 = None -> rev_token l3 = Some r3 ->
     let st := parse_lines (Dict.empty, None) pre in
     let st2 := parse_lines st [l1; l2] in
     st2 = (if Py.truthy k then (Dict.set (fst st) k r2, None) else (fst st, Some k))
     /\ parse_line st2 l3 = st2
     /\ parse_config_text content = fst (parse_lines st2 post)).
Proof.
  split.
  - intros tools cur line H. rewrite parse_line_eq in *.
    destruct (repo_line line); [now elim H|].
    destruct cur as [repo|]; [|now elim H].
    destruct (rev_token line) as [rev|]; [|now elim H].
    destruct (Py.truthy repo) eqn:Et; [|now elim H].
    exists repo, rev. apply truthy_ne in Et. repeat split; auto.
  - intros content pre post l1 l2 l3 k r2 r3 Hc H1 H2 H2' H3 H3' st st2.
    assert (E2 : st2 = if Py.truthy k then (Dict.set (fst st) k r2, None)
                       else (fst st, Some k)).
    { subst st2. destruct st as [tools cur]. now apply repo_then_rev. }
    assert (E3 : parse_line st2 l3 = st2).
    { rewrite E2. destruct (Py.truthy k) eqn:Et.
      - rewrite parse_line_eq, H3. reflexivity.
      - rewrite parse_line_eq, H3, H3', Et. reflexivity. }
    split; [exact E2|]. split; [exact E3|].
    unfold parse_config_text. rewrite Hc, parse_lines_app. fold st.
    assert (E : parse_lines st (l1 :: l2 :: l3 :: post)
                = parse_lines (parse_line st2 l3) post) by reflexivity.
    now rewrite E, E3.
Qed.

Lemma config_rev_binds_pending_once_witness :
  parse_config_text two_revs_config = [("psf/black", "24.4.0")].
Proof.
  pose proof (proj2 config_rev_binds_pending_once two_revs_config [] []
    "- repo: https://github.com/psf/black" "  rev: 24.4.0" "  rev: 9.9.9"
    "psf/black" "24.4.0" "9.9.9"
    eq_refl eq_refl eq_refl eq_refl eq_refl eq_refl) as (H1 & _ & H3).
  rewrite H3, H1. reflexivity.
Defined.

Lemma skip_plain_lines mids : forall tools cur,
  Forall (fun l => repo_line l = None /\ rev_token l = None) mids ->
  parse_lines (tools, cur) mids = (tools, cur).
Proof.
  induction mids as [|l mids IH]; intros tools cur H; [reflexivity|].
  inversion H as [|? ? [Hr Hv] Hrest]; subst. simpl.
  assert (E : parse_line (tools, cur) l = (tools, cur))
    by (rewrite parse_line_eq, Hr, Hv; destruct cur; reflexivity).
  rewrite E. now apply IH.
Qed.

(** C8. In any config text, a repository line that meets the next
    repository line before any revision line adds nothing to the map: the
    later reference takes the place of the pending identity. *)
Theorem dangling_repo_line_dropped :
  forall content pre post l1 mids l2 k1 k2,
    Py.splitlines content = (pre ++ l1 :: mids ++ l2 :: post)%list ->
    repo_line l1 = Some k1 ->
    Forall (fun l => repo_line l = None /\ rev_token l = None) mids ->
    repo_line l2 = Some k2 ->
    let st := parse_lines (Dict.empty, None) pre in
    parse_lines st (l1 :: mids ++ [l2]) = (fst st, Some k2)
    /\ parse_config_text content = fst (parse_lines (fst st, Some k2) post).
Proof.
  intros content pre post l1 mids l2 k1 k2 Hc H1 Hm H2 st.
  assert (E : parse_lines st (l1 :: mids ++ [l2]) = (fst st, Some k2)).
  { destruct st as [tools cur]. simpl. rewrite parse_line_eq, H1.
    change (fold_left parse_line (mids ++ [l2]) (tools, Some k1))
      with (parse_lines (tools, Some k1) (mids ++ [l2])).
    rewrite parse_lines_app, skip_plain_lines by assumption.
    simpl. now rewrite parse_line_eq, H2. }
  split; [exact E|].
  unfold parse_config_text. rewrite Hc, parse_lines_app. fold st.
  replace (l1 :: mids ++ l2 :: post)%list
    with ((l1 :: mids ++ [l2]) ++ post)%list
    by (simpl; now rewrite <- app_assoc).
  now rewrite parse_lines_app, E.
Qed.

Lemma dangling_repo_line_dropped_witness :
  parse_config_text dangling_config = [("pycqa/flake8", "7.0.0")].
Proof.
  destruct (dangling_repo_line_dropped dangling_config [] ["  rev: 7.0.0"]
    "- repo: https://github.com/psf/black" ["  hooks:"]
    "- repo: https://github.com/pycqa/flake8" "psf/black" "pycqa/flake8")
    as [_ H];
    [reflexivity | reflexivity | repeat constructor | reflexivity |].
  rewrite H. reflexivity.
Defined.

End ParserClaims.

Module CanonicalMap.
Import ParserFacts.

Lemma keeps_binding k r l : forall tools cur,
  repo_line l <> Some k ->
  Dict.get tools k = Some r -> cur <> Some k ->
  Dict.get (fst (parse_line (tools, cur) l)) k = Some r
  /\ snd (parse_line (tools, cur) l) <> Some k.
Proof.
  intros tools cur Hl Hg Hc. rewrite parse_line_eq.
  destruct (repo_line l) as [k'|]; [split; [exact Hg | exact Hl]|].
  destruct cur as [repo|]; [|split; [exact Hg | discriminate]].
  destruct (rev_token l) as [rev|]; [|split; assumption].
  destruct (Py.truthy repo); [|split; assumption].
  simpl. split; [|discriminate].
  rewrite DictFacts.get_set_other; [exact Hg | congruence].
Qed.

Lemma keeps_binding_lines k r post : forall st,
  Forall (fun l => repo_line l <> Some k) post ->
  Dict.get (fst st) k = Some r -> snd st <> Some k ->
  Dict.get (fst (parse_lines st post)) k = Some r.
Proof.
  induction post as [|l post IH]; intros [tools cur] HF Hg Hc; [exact Hg|].
  inversion HF as [|? ? Hl Hrest]; subst.
  destruct (keeps_binding k r l tools cur Hl Hg Hc) as [Hg' Hc'].
  change (parse_lines (tools, cur) (l :: post))
    with (parse_lines (parse_line (tools, cur) l) post).
  now apply IH.
Qed.

(** The same reference twice, each time with its revision line, but with
    the empty identity: the map has no entry for it. *)
Lemma repeated_empty_identity_has_no_entry :
  Py.splitlines repeated_empty_config
  = ["- repo: https://gitlab.com/pycqa/flake8/"; "  rev: 6.0.0";
     "- repo: https://gitlab.com/pycqa/flake8/"; "  rev: 7.0.0"]
  /\ repo_line "- repo: https://gitlab.com/pycqa/flake8/" = Some ""
  /\ (repo_line "  rev: 6.0.0" = None /\ rev_token "  rev: 6.0.0" = Some "6.0.0")
  /\ (repo_line "  rev: 7.0.0" = None /\ rev_token "  rev: 7.0.0" = Some "7.0.0")
  /\ parse_config_text repeated_empty_config = Dict.empty
  /\ count_occ string_dec (Dict.keys (parse_config_text repeated_empty_config)) "" <> 1
  /\ Dict.get (parse_config_text repeated_empty_config) "" <> Some "7.0.0".
Proof. vm_compute. repeat split; try reflexivity; discriminate. Qed.

Lemma repo_plain_rev tools cur l_repo mids l_rev k r :
  repo_line l_repo = Some k -> k <> "" ->
  Forall (fun l => repo_line l = None /\ rev_token l = None) mids ->
  repo_line l_rev = None -> rev_token l_rev = Some r ->
  parse_lines (tools, cur) (l_repo :: mids ++ [l_rev]) = (Dict.set tools k r, None).
Proof.
  intros H1 Hk Hm H2 H3.
  change (parse_lines (tools, cur) (l_repo :: mids ++ [l_rev]))
    with (parse_lines (parse_line (tools, cur) l_repo) (mids ++ [l_rev])).
  rewrite parse_line_eq, H1, parse_lines_app.
  rewrite (ParserClaims.skip_plain_lines mids tools (Some k) Hm).
  change (parse_lines (tools, Some k) [l_rev])
    with (parse_line (tools, Some k) l_rev).
  rewrite parse_line_eq, H2, H3.
  apply truthy_ne in Hk. now rewrite Hk.
Qed.

(** C9, amended. When an identity that is not empty is bound several
    times in a config text, the map has one entry for it, with the revision
    of its last occurrence: the last repository line for that identity and
    the revision line that follows it, be it at once or after lines that
    are neither repository nor revision lines.  The occurrences before it
    do not count.  The empty identity is never a key of the map. *)
Theorem last_occurrence_wins :
  forall content pre post l_repo mids l_rev k r,
    Py.splitlines content = (pre ++ l_repo :: mids ++ l_rev :: post)%list ->
    repo_line l_repo = Some k -> k <> "" ->
    Forall (fun l => repo_line l = None /\ rev_token l = None) mids ->
    repo_line l_rev = None -> rev_token l_rev = Some r ->
    Forall (fun l => repo_line l <> Some k) post ->
    Dict.get (parse_config_text content) k = Some r
    /\ count_occ string_dec (Dict.keys (parse_config_text content)) k = 1
    /\ ~ In "" (Dict.keys (parse_config_text content)).
Proof.
  intros content pre post l_repo mids l_rev k r Hc H1 Hk Hm H2 H3 Hpost.
  assert (Hget : Dict.get (parse_config_text content) k = Some r).
  { unfold parse_config_text. rewrite Hc, parse_lines_app.
    destruct (parse_lines (Dict.empty, None) pre) as [tools cur].
    replace (l_repo :: mids ++ l_rev :: post)%list
      with ((l_repo :: mids ++ [l_rev]) ++ post)%list
      by (simpl; now rewrite <- app_assoc).
    rewrite parse_lines_app.
    rewrite (repo_plain_rev tools cur l_repo mids l_rev k r H1 Hk Hm H2 H3).
    apply keeps_binding_lines; simpl;
      [exact Hpost | apply DictFacts.get_set_same | discriminate]. }
  split; [exact Hget|].
  pose proof (parse_config_text_ok content) as Hok.
  split.
  - destruct Hok as [Hnd _].
    apply NoDup_count_occ'; [exact Hnd|].
    apply DictFacts.get_some_in in Hget.
    unfold Dict.keys. change k with (fst (k, r)). now apply in_map.
  - intros Hin. unfold Dict.keys in Hin.
    apply in_map_iff in Hin as ([a b] & Ha & Hin). simpl in Ha. subst a.
    destruct Hok as [_ Hall]. rewrite Forall_forall in Hall.
    now destruct (Hall _ Hin) as [Hne _].
Qed.

Lemma last_occurrence_wins_witness :
  Dict.get (parse_config_text spaced_repeated_config) "psf/black" = Some "24.4.0"
  /\ count_occ string_dec (Dict.keys (parse_config_text spaced_repeated_config))
               "psf/black" = 1
  /\ ~ In "" (Dict.keys (parse_config_text spaced_repeated_config)).
Proof.
  apply (last_occurrence_wins spaced_repeated_config
           ["- repo: https://github.com/psf/black"; "  rev: 23.1.0"]
           ["  hooks:"] "- repo: https://github.com/psf/black.git"
           ["  # pinned by hand"] "  rev: 24.4.0");
    [reflexivity | reflexivity | discriminate | repeat constructor
    | reflexivity | reflexivity | repeat constructor; discriminate].
Defined.

Example repeated_config_parsed :
  parse_config_text repeated_config
  = [("psf/black", "24.4.0"); ("pycqa/flake8", "7.0.0")].
Proof. reflexivity. Qed.

End CanonicalMap.

(** ** Revisions are tokens *)

Module Tokens.
Import ParserFacts.

Lemma rstrip_token s : all_in Re.nonspace s = true -> Py.rstrip s = s.
Proof.
  induction s as [|c s IH]; simpl; [reflexivity|].
  intros H. apply andb_prop in H as [Hc Hs]. rewrite (IH Hs).
  destruct s; [|reflexivity].
  unfold Re.nonspace in Hc. apply negb_true_iff in Hc. now rewrite Hc.
Qed.

Lemma lstrip_token s : all_in Re.nonspace s = true -> Py.lstrip s = s.
Proof.
  destruct s as [|c s]; simpl; [reflexivity|].
  intros H. apply andb_prop in H as [Hc _].
  unfold Re.nonspace in Hc. apply negb_true_iff in Hc. now rewrite Hc.
Qed.

Lemma strip_token s : all_in Re.nonspace s = true -> Py.strip s = s.
Proof.
  intros H. unfold Py.strip. rewrite (lstrip_token s H). now apply rstrip_token.
Qed.

Ltac split_segments :=
  repeat match goal with
         | H : Forall2 _ (_ :: _) _ |- _ => inversion H; subst; clear H
         | H : Forall2 _ [] _ |- _ => inversion H; subst; clear H
         end.

(** The two groups of a match of the block pattern. *)
Lemma block_groups segs t rest :
  Re.match_here block_pattern t = Some (segs, rest) ->
  (Re.group segs 2 <> "" /\ all_in Re.dot (Re.group segs 2) = true)
  /\ is_token (Re.group segs 8).
Proof.
  intros H. apply ReFacts.match_here_sound in H as [HF _].
  unfold block_pattern in HF. simpl in HF. split_segments.
  unfold Re.group; simpl.
  repeat match goal with H : ReSpec.item_ok _ _ |- _ => simpl in H end.
  repeat match goal with H : _ /\ _ |- _ => destruct H end.
  repeat split; try assumption; intros ->; simpl in *; lia.
Qed.

Lemma scan_text_tokens md_file content f key rev :
  In (f, key, rev) (scan_text md_file content) -> is_token rev.
Proof.
  unfold scan_text. intros H. apply in_map_iff in H as (segs & Heq & Hin).
  apply ReFacts.finditer_from_sound in Hin as (t & rest & Hm).
  apply block_groups in Hm as [_ Htok].
  unfold usage_of_match in Heq. inversion Heq; subst.
  destruct Htok as [Hne Hall]. rewrite (strip_token _ Hall). now split.
Qed.

(** C10. The revisions of the canonical map and those of the usages are
    non-empty and have no whitespace, so on the canonical map the test
    [if canonical_rev:] holds exactly for the keys of the map. *)
Theorem revisions_are_tokens :
  forall content files,
    (forall k v, In (k, v) (parse_config_text content) -> is_token v)
    /\ (forall f key rev, In (f, key, rev) (scan_markdown_files files) -> is_token rev)
    /\ (forall k, Py.truthy_opt (Dict.get (parse_config_text content) k) = true
                  <-> In k (Dict.keys (parse_config_text content))).
Proof.
  intros content files.
  destruct (parse_config_text_ok content) as [_ Hall].
  rewrite Forall_forall in Hall.
  split; [|split].
  - intros k v Hin. now destruct (Hall _ Hin).
  - intros f key rev Hin. unfold scan_markdown_files in Hin.
    apply in_flat_map in Hin as ([file text] & _ & Hin).
    now apply scan_text_tokens in Hin.
  - intros k. split.
    + intros Ht. destruct (Dict.get (parse_config_text content) k) eqn:E;
        [|discriminate].
      apply DictFacts.get_some_in in E.
      unfold Dict.keys. change k with (fst (k, s)). now apply in_map.
    + intros Hin. apply DictFacts.in_keys_get in Hin as [v Hv]. rewrite Hv.
      apply DictFacts.get_some_in in Hv. destruct (Hall _ Hv) as [_ [Hne _]].
      simpl in *. now apply truthy_ne.
Qed.

End Tokens.

(** ** Reconciler *)

Module ReconcilerFacts.
Import ParserFacts.

Lemma endswith_iff s suf : Py.endswith s suf = true <-> is_suffix suf s.
Proof.
  induction s as [|c s IH].
  - cbn [Py.endswith]. rewrite orb_false_r, String.eqb_eq. split.
    + intros <-. now exists "".
    + intros [p Hp]. destruct p; [exact Hp | discriminate].
  - cbn [Py.endswith]. rewrite orb_true_iff, String.eqb_eq, IH. split.
    + intros [<- | [p ->]]; [now exists "" | now exists (String c p)].
    + intros [p Hp]. destruct p as [|a p]; [now left|].
      right. inversion Hp; subst. now exists p.
Qed.

Lemma related_iff repo_key c_repo :
  Py.endswith repo_key c_repo || Py.endswith c_repo repo_key = true
  <-> suffix_related repo_key c_repo.
Proof.
  unfold suffix_related. now rewrite orb_true_iff, !endswith_iff.
Qed.

Lemma find_first_such {A} (p : A -> bool) (P : A -> Prop) :
  (forall x, p x = true <-> P x) ->
  forall l c, find p l = Some c <-> first_such P l c.
Proof.
  intros Hp. induction l as [|a l IH]; intros c; simpl.
  - split; [discriminate|]. intros (pre & post & H & _). now destruct pre.
  - destruct (p a) eqn:Ea.
    + split.
      * intros H; inversion H; subst. exists [], l.
        split; [reflexivity|]. split; [now apply Hp | intros x []].
      * intros (pre & post & H & Hc & Hpre). destruct pre as [|b pre].
        { now inversion H. }
        inversion H; subst. exfalso. apply (Hpre b); [now left | now apply Hp].
    + rewrite IH. split.
      * intros (pre & post & -> & Hc & Hpre). exists (a :: pre), post.
        split; [reflexivity|]. split; [exact Hc|].
        intros x [<-|Hx]; [|now apply Hpre].
        intros HP. apply Hp in HP. congruence.
      * intros (pre & post & H & Hc & Hpre). destruct pre as [|b pre].
        { inversion H; subst. apply Hp in Hc. congruence. }
        inversion H; subst. exists pre, post.
        split; [reflexivity|]. split; [exact Hc|].
        intros x Hx. apply Hpre. now right.
Qed.

(** The fuzzy candidate is the first key, in the order of the map, that
    is related to the identity. *)
Lemma possible_match_first cv repo_key c :
  possible_match cv repo_key = Some c
  <-> first_such (suffix_related repo_key) (Dict.keys cv) c.
Proof.
  unfold possible_match. apply find_first_such. intros x. apply related_iff.
Qed.

Lemma possible_match_none cv repo_key :
  possible_match cv repo_key = None
  <-> forall c, In c (Dict.keys cv) -> ~ suffix_related repo_key c.
Proof.
  unfold possible_match. split.
  - intros H c Hin Hrel. apply related_iff in Hrel.
    pose proof (find_none _ _ H c Hin) as Hf. simpl in Hf. congruence.
  - intros H.
    destruct (find _ (Dict.keys cv)) as [c|] eqn:E; [|reflexivity].
    apply find_some in E as [Hin Hrel]. apply related_iff in Hrel.
    now elim (H c Hin).
Qed.

Lemma possible_match_in cv repo_key c :
  possible_match cv repo_key = Some c -> In c (Dict.keys cv).
Proof. unfold possible_match. intros H. now apply find_some in H. Qed.

Lemma key_nonempty cv k : tools_ok cv -> In k (Dict.keys cv) -> k <> "".
Proof.
  intros [_ Hall] Hin. unfold Dict.keys in Hin.
  apply in_map_iff in Hin as ([a b] & <- & Hin).
  rewrite Forall_forall in Hall. now destruct (Hall _ Hin).
Qed.

Lemma value_nonempty cv k v : tools_ok cv -> Dict.get cv k = Some v -> v <> "".
Proof.
  intros [_ Hall] Hg. apply DictFacts.get_some_in in Hg.
  rewrite Forall_forall in Hall. now destruct (Hall _ Hg) as [_ [H _]].
Qed.

Lemma truthy_get cv k :
  tools_ok cv ->
  Py.truthy_opt (Dict.get cv k) = true <-> In k (Dict.keys cv).
Proof.
  intros Hok. split.
  - destruct (Dict.get cv k) eqn:E; [|discriminate]. intros _.
    destruct (in_dec string_dec k (Dict.keys cv)) as [H|H]; [exact H|].
    apply DictFacts.get_none_iff in H. congruence.
  - intros Hin. apply DictFacts.in_keys_get in Hin as [v Hv]. rewrite Hv.
    simpl. apply truthy_ne. now apply (value_nonempty cv k).
Qed.

Lemma print4 a b c d (x : counters) out :
  (print a ;;; print b ;;; print c ;;; print d ;;; ret x) out
  = ((out ++ [a; b; c; d])%list, Returned x).
Proof.
  unfold bind, print, ret. now rewrite <- !app_assoc.
Qed.

(** One turn of the loop, on a map that the parser has built. *)
Lemma reconcile_usage_eq cv errors warnings file_path repo_key rev out :
  tools_ok cv ->
  reconcile_usage cv (errors, warnings) (file_path, repo_key, rev) out =
  ((out ++ diagnostic cv (file_path, repo_key, rev))%list,
   Returned
     (errors + (if mismatched cv (file_path, repo_key, rev) then 1 else 0),
      warnings + (if unresolved cv (file_path, repo_key, rev) then 1 else 0))).
Proof.
  intros Hok.
  unfold reconcile_usage, diagnostic, mismatched, unresolved, resolved_revision.
  destruct (Dict.get cv repo_key) as [v|] eqn:Eg.
  - assert (Ht : Py.truthy_opt (Some v) = true)
      by (simpl; apply truthy_ne; now apply (value_nonempty cv repo_key)).
    rewrite Ht. destruct (rev =? v); cbn [negb].
    + unfold ret. now rewrite app_nil_r, !Nat.add_0_r.
    + unfold exact_diagnostic. rewrite print4. now rewrite Nat.add_0_r.
  - cbn [Py.truthy_opt]. cbv iota.
    destruct (possible_match cv repo_key) as [c|] eqn:Ep.
    + pose proof (possible_match_in _ _ _ Ep) as Hin.
      assert (Ht : Py.truthy_opt (Some c) = true)
        by (simpl; apply truthy_ne; now apply (key_nonempty cv)).
      rewrite Ht. apply DictFacts.in_keys_get in Hin as [c_rev Hc].
      rewrite Hc. destruct (rev =? c_rev); cbn [negb].
      * unfold ret. now rewrite app_nil_r, !Nat.add_0_r.
      * unfold fuzzy_diagnostic. rewrite print4. now rewrite Nat.add_0_r.
    + cbn [Py.truthy_opt]. cbv iota. unfold ret.
      now rewrite app_nil_r, Nat.add_0_r.
Qed.

End ReconcilerFacts.

Module ReconcilerClaims.
Import ParserFacts ReconcilerFacts.

(** C3. On the canonical map of any config text, the fuzzy fallback is
    attempted exactly when the identity of the usage is not a key.  It
    takes the first key, in the order of the map, that ends with the
    identity or that the identity ends with: a different revision gives one
    fuzzy diagnostic and one more error, an equal one gives nothing; with
    no such key only the warnings grow.  A usage whose identity is a key is
    compared with the revision of that key. *)
Theorem fuzzy_fallback_first_suffix_match :
  forall content file_path repo_key rev errors warnings out,
    let cv := parse_config_text content in
    let run := reconcile_usage cv (errors, warnings) (file_path, repo_key, rev) out in
    (fuzzy_attempted cv repo_key = true <-> ~ In repo_key (Dict.keys cv))
    /\ (~ In repo_key (Dict.keys cv) ->
        (forall c, first_such (suffix_related repo_key) (Dict.keys cv) c ->
           exists c_rev,
             Dict.get cv c = Some c_rev /\
             run = if rev =? c_rev
                   then (out, Returned (errors, warnings))
                   else ((out ++ fuzzy_diagnostic file_path repo_key c rev c_rev)%list,
                         Returned (errors + 1, warnings)))
        /\ ((forall c, In c (Dict.keys cv) -> ~ suffix_related repo_key c) ->
            run = (out, Returned (errors, warnings + 1))))
    /\ (In repo_key (Dict.keys cv) ->
        exists canonical_rev,
          Dict.get cv repo_key = Some canonical_rev /\
          run = if rev =? canonical_rev
                then (out, Returned (errors, warnings))
                else ((out ++ exact_diagnostic file_path repo_key rev canonical_rev)%list,
                      Returned (errors + 1, warnings))).
Proof.
  intros content file_path repo_key rev errors warnings out cv run.
  pose proof (parse_config_text_ok content) as Hok. fold cv in Hok.
  assert (Hrun := reconcile_usage_eq cv errors warnings file_path repo_key rev out Hok).
  fold run in Hrun.
  split; [|split].
  - unfold fuzzy_attempted. rewrite negb_true_iff.
    rewrite <- (truthy_get cv repo_key Hok).
    destruct (Py.truthy_opt (Dict.get cv repo_key)); split; congruence.
  - intros Hnin. apply DictFacts.get_none_iff in Hnin. split.
    + intros c Hc. apply possible_match_first in Hc.
      pose proof (possible_match_in _ _ _ Hc) as Hin.
      apply DictFacts.in_keys_get in Hin as [c_rev Hg].
      exists c_rev. split; [exact Hg|].
      rewrite Hrun. unfold diagnostic, mismatched, unresolved, resolved_revision.
      rewrite Hnin, Hc, Hg.
      destruct (rev =? c_rev); cbn [negb];
        now rewrite ?app_nil_r, ?Nat.add_0_r.
    + intros Hnone. apply possible_match_none in Hnone.
      rewrite Hrun. unfold diagnostic, mismatched, unresolved, resolved_revision.
      rewrite Hnin, Hnone. now rewrite app_nil_r, Nat.add_0_r.
  - intros Hin. apply DictFacts.in_keys_get in Hin as [v Hg].
    exists v. split; [exact Hg|].
    rewrite Hrun. unfold diagnostic, mismatched, unresolved, resolved_revision.
    rewrite Hg. destruct (rev =? v); cbn [negb];
      now rewrite ?app_nil_r, ?Nat.add_0_r.
Qed.

(** The loop over the usages: what it prints and what it counts. *)
Lemma for_each_usages cv : tools_ok cv ->
  forall usages errors warnings out,
    for_each usages (errors, warnings) (reconcile_usage cv) out =
    ((out ++ flat_map (diagnostic cv) usages)%list,
     Returned (errors + List.length (filter (mismatched cv) usages),
               warnings + List.length (filter (unresolved cv) usages))).
Proof.
  intros Hok. induction usages as [|[[f key] rev] usages IH];
    intros errors warnings out.
  - simpl. unfold ret. now rewrite app_nil_r, !Nat.add_0_r.
  - cbn [for_each]. unfold bind at 1.
    rewrite (reconcile_usage_eq cv errors warnings f key rev out Hok).
    rewrite IH. cbn [flat_map filter].
    rewrite <- app_assoc. f_equal. f_equal.
    destruct (mismatched cv (f, key, rev)), (unresolved cv (f, key, rev));
      simpl; f_equal; lia.
Qed.

(** The loop and the summary, by the number of mismatches. *)
Lemma reconcile_eq cv usages out : tools_ok cv ->
  let errors := List.length (filter (mismatched cv) usages) in
  let warnings := List.length (filter (unresolved cv) usages) in
  reconcile cv usages out =
  if (errors =? 0)%nat
  then ((out ++ flat_map (diagnostic cv) usages
             ++ success_line :: (if (0 <? warnings)%nat then [ignored_line warnings] else []))%list,
        Returned tt)
  else ((out ++ flat_map (diagnostic cv) usages ++ [failure_line errors])%list,
        Exited 1%Z).
Proof.
  intros Hok errors warnings. unfold reconcile. unfold bind at 1.
  rewrite (for_each_usages cv Hok). cbn [Nat.add]. fold errors warnings.
  destruct (errors =? 0)%nat.
  - unfold bind, print, ret. fold success_line. fold (ignored_line warnings).
    destruct (0 <? warnings)%nat; now rewrite <- !app_assoc.
  - unfold bind, print, sys_exit. fold (failure_line errors).
    now rewrite <- !app_assoc.
Qed.

Lemma no_mismatch_filter cv usages :
  (forall u, In u usages -> mismatched cv u = false) ->
  filter (mismatched cv) usages = [] /\ flat_map (diagnostic cv) usages = [].
Proof.
  induction usages as [|u usages IH]; intros H; [now split|].
  cbn [filter flat_map]. rewrite (H u (or_introl eq_refl)).
  destruct IH as [IH1 IH2]; [intros; apply H; now right|].
  rewrite IH1, IH2, app_nil_r. split; [reflexivity|].
  pose proof (H u (or_introl eq_refl)) as Hu.
  destruct u as [[f key] rev]. unfold mismatched, resolved_revision in Hu.
  unfold diagnostic.
  destruct (Dict.get cv key) as [v|].
  - apply negb_false_iff in Hu. now rewrite Hu.
  - destruct (possible_match cv key) as [c|]; [|reflexivity].
    destruct (Dict.get cv c) as [c_rev|]; [|reflexivity].
    apply negb_false_iff in Hu. now rewrite Hu.
Qed.

(** C7. On the canonical map of any config text and for any usages: when
    the revision of every usage equals its canonical revision, exact or
    fuzzy, the loop prints nothing and counts no error, and the run prints
    the success summary and ends with status 0. *)
Theorem agreeing_usages_succeed :
  forall content usages out,
    let cv := parse_config_text content in
    (forall f key rev v,
       In (f, key, rev) usages -> resolved_revision cv key = Some v -> rev = v) ->
    exists warnings,
      for_each usages (0, 0) (reconcile_usage cv) out = (out, Returned (0, warnings))
      /\ reconcile cv usages out =
         ((out ++ success_line
               :: (if (0 <? warnings)%nat then [ignored_line warnings] else []))%list,
          Returned tt)
      /\ exit_status (snd (reconcile cv usages out)) = 0%Z.
Proof.
  intros content usages out cv Hagree.
  pose proof (parse_config_text_ok content) as Hok. fold cv in Hok.
  assert (Hno : forall u, In u usages -> mismatched cv u = false).
  { intros [[f key] rev] Hin. unfold mismatched.
    destruct (resolved_revision cv key) as [v|] eqn:E; [|reflexivity].
    rewrite (Hagree f key rev v Hin E). now rewrite String.eqb_refl. }
  apply no_mismatch_filter in Hno as [Hf Hd].
  exists (List.length (filter (unresolved cv) usages)).
  assert (Hrec := reconcile_eq cv usages out Hok). cbv zeta in Hrec.
  rewrite Hf, Hd in Hrec. cbn [List.length Nat.eqb app] in Hrec.
  split; [|split].
  - rewrite (for_each_usages cv Hok), Hf, Hd. now rewrite app_nil_r.
  - exact Hrec.
  - now rewrite Hrec.
Qed.

Lemma agreeing_usages_succeed_witness :
  exists warnings,
    for_each [("guides/a.md", "psf/black", "24.4.0"); ("guides/b.md", "black", "24.4.0");
              ("guides/b.md", "mypy", "1.0")]
             (0, 0) (reconcile_usage (parse_config_text black_config)) []
    = ([], Returned (0, warnings))
    /\ reconcile (parse_config_text black_config)
         [("guides/a.md", "psf/black", "24.4.0"); ("guides/b.md", "black", "24.4.0");
          ("guides/b.md", "mypy", "1.0")] []
       = (([] ++ success_line
              :: (if (0 <? warnings)%nat then [ignored_line warnings] else []))%list,
          Returned tt)
    /\ exit_status (snd (reconcile (parse_config_text black_config)
         [("guides/a.md", "psf/black", "24.4.0"); ("guides/b.md", "black", "24.4.0");
          ("guides/b.md", "mypy", "1.0")] [])) = 0%Z.
Proof.
  apply (agreeing_usages_succeed black_config).
  intros f key rev v [H|[H|[H|[]]]] Hr; inversion H; subst;
    vm_compute in Hr; congruence.
Defined.

Lemma existsb_filter {A} (p : A -> bool) l :
  existsb p l = negb (List.length (filter p l) =? 0)%nat.
Proof.
  induction l as [|a l IH]; simpl; [reflexivity|].
  destruct (p a); simpl; [reflexivity | exact IH].
Qed.

(** C4. The exit status is 1 when the config file is missing, 1 when the
    config gives no canonical version, 1 when some usage differs from its
    canonical revision, exact or fuzzy, and 0 otherwise, also when usages
    were left unresolved. *)
Theorem exit_status_cases :
  forall w,
    snd (run_main w) =
    match config_file w with
    | None => 1%Z
    | Some content =>
        let cv := parse_config_text content in
        if Dict.is_empty cv then 1%Z
        else if existsb (mismatched cv) (scan_markdown_files (guide_files w))
             then 1%Z else 0%Z
    end.
Proof.
  intros w. unfold run_main, main, parse_pre_commit_config. cbn [snd].
  destruct (config_file w) as [content|]; [|reflexivity].
  cbv zeta. pose proof (parse_config_text_ok content) as Hok.
  unfold bind at 1. unfold print at 1. unfold bind at 1. unfold ret at 1.
  destruct (Dict.is_empty (parse_config_text content)); [reflexivity|].
  unfold bind at 1. unfold print at 1. unfold bind at 1. unfold print at 1.
  rewrite (reconcile_eq _ _ _ Hok). cbv zeta.
  rewrite existsb_filter.
  now destruct (List.length _ =? 0)%nat.
Qed.

End ReconcilerClaims.

(** ** Identity normalization *)

Module NormalizeFacts.

Lemma prefix_iff p : forall s, prefix p s = true <-> exists r, s = p ++ r.
Proof.
  induction p as [|a p IH]; intros s.
  - destruct s; simpl; split; eauto.
  - destruct s as [|b s]; simpl.
    + split; [discriminate | intros [r H]; discriminate].
    + destruct (ascii_dec a b) as [->|Hne].
      * rewrite IH. split; intros [r H]; exists r; [now subst | now inversion H].
      * split; [discriminate | intros [r H]; inversion H; congruence].
Qed.

Lemma contains_iff sub : forall s,
  Py.contains sub s = true <-> exists pre post, s = pre ++ sub ++ post.
Proof.
  induction s as [|c s IH]; cbn [Py.contains]; rewrite orb_true_iff, prefix_iff.
  - split.
    + intros [[r H]|H]; [now exists "", r | discriminate].
    + intros (pre & post & H). left. exists post.
      destruct pre; [exact H | discriminate].
  - rewrite IH. split.
    + intros [[r H]|(pre & post & ->)]; [now exists "", r|].
      now exists (String c pre), post.
    + intros (pre & post & H). destruct pre as [|a pre].
      * left. now exists post.
      * right. inversion H; subst. now exists pre, post.
Qed.

(** A text that has the marker has a separator. *)
Lemma marker_has_separator s :
  Py.contains "github.com/" s = true -> Py.contains "/" s = true.
Proof.
  rewrite !contains_iff. intros (pre & post & ->).
  exists (pre ++ "github.com"), post.
  rewrite append_assoc. reflexivity.
Qed.

Lemma contains_tail sub c s :
  Py.contains sub (String c s) = false -> Py.contains sub s = false.
Proof. cbn [Py.contains]. intros H. now apply orb_false_iff in H. Qed.

Lemma contains_head sub c s :
  Py.contains sub (String c s) = false -> prefix sub (String c s) = false.
Proof. cbn [Py.contains]. intros H. now apply orb_false_iff in H. Qed.

(** Without an occurrence, [replace] and [split] leave the text whole. *)
Lemma replace_absent old new : forall s,
  Py.contains old s = false -> Py.replace old new s = s.
Proof.
  unfold Py.replace. induction s as [|c s IH]; intros H; [reflexivity|].
  cbn [Py.replace_from]. rewrite (contains_head _ _ _ H).
  f_equal. apply IH. now apply contains_tail in H.
Qed.

Lemma split_absent sep : forall s,
  Py.contains sep s = false -> Py.split sep s = [s].
Proof.
  unfold Py.split. induction s as [|c s IH]; intros H; [reflexivity|].
  cbn [Py.split_from]. rewrite (contains_head _ _ _ H).
  rewrite IH by now apply contains_tail in H. reflexivity.
Qed.

(** Lengths: each step of the normalization can only shorten the text. *)
Lemma lstrip_length s : String.length (Py.lstrip s) <= String.length s.
Proof.
  induction s as [|c s IH]; simpl; [lia|].
  destruct (py_isspace c); simpl; lia.
Qed.

Lemma lstrip_same_length s :
  String.length (Py.lstrip s) = String.length s -> Py.lstrip s = s.
Proof.
  destruct s as [|c s]; simpl; [reflexivity|].
  destruct (py_isspace c); [|reflexivity].
  pose proof (lstrip_length s). lia.
Qed.

Lemma rstrip_length s : String.length (Py.rstrip s) <= String.length s.
Proof.
  induction s as [|c s IH]; simpl; [lia|].
  destruct (Py.rstrip s); [destruct (py_isspace c)|]; simpl in *; lia.
Qed.

Lemma rstrip_same_length s :
  String.length (Py.rstrip s) = String.length s -> Py.rstrip s = s.
Proof.
  induction s as [|c s IH]; simpl; [reflexivity|].
  pose proof (rstrip_length s) as Hl.
  destruct (Py.rstrip s) as [|a r] eqn:E.
  - destruct (py_isspace c); simpl in *; intros H; [lia|].
    destruct s; [reflexivity | simpl in H; lia].
  - simpl in *. intros H. f_equal. apply IH. lia.
Qed.

Lemma strip_length s : String.length (Py.strip s) <= String.length s.
Proof.
  unfold Py.strip. pose proof (rstrip_length (Py.lstrip s)).
  pose proof (lstrip_length s). lia.
Qed.

Lemma strip_same_length s :
  String.length (Py.strip s) = String.length s -> Py.strip s = s.
Proof.
  unfold Py.strip. intros H.
  pose proof (rstrip_length (Py.lstrip s)). pose proof (lstrip_length s).
  assert (E : Py.lstrip s = s) by (apply lstrip_same_length; lia).
  rewrite E in *. now apply rstrip_same_length.
Qed.

Lemma remove_length old : forall s skip,
  String.length (Py.replace_from old "" skip s) <= String.length s.
Proof.
  induction s as [|c s IH]; intros skip; cbn [Py.replace_from]; [simpl; lia|].
  destruct skip as [|k].
  - destruct (prefix old (String c s)); simpl.
    + pose proof (IH (String.length old - 1)). lia.
    + pose proof (IH 0). lia.
  - pose proof (IH k). simpl. lia.
Qed.

Lemma remove_shortens old : old <> "" -> forall s,
  Py.contains old s = true ->
  String.length (Py.replace old "" s) < String.length s.
Proof.
  intros Hold. unfold Py.replace.
  induction s as [|c s IH]; cbn [Py.contains Py.replace_from].
  - rewrite orb_false_r. intros H. destruct old; [congruence | discriminate].
  - destruct (prefix old (String c s)).
    + intros _. pose proof (remove_length old s (String.length old - 1)).
      simpl. lia.
    + cbn [orb]. intros H. apply IH in H. simpl. lia.
Qed.

Lemma last_push_piece c l :
  String.length (Py.last_piece (Py.push_piece c l))
  <= S (String.length (Py.last_piece l)).
Proof.
  unfold Py.last_piece. destruct l as [|p [|q l]]; simpl; lia.
Qed.

Lemma split_from_nonempty sep : forall s skip, Py.split_from sep skip s <> [].
Proof.
  induction s as [|c s IH]; intros skip; cbn [Py.split_from]; [discriminate|].
  destruct skip; [|apply IH].
  destruct (prefix sep (String c s)); [discriminate|].
  specialize (IH 0). destruct (Py.split_from sep 0 s); [congruence | discriminate].
Qed.

Lemma last_piece_cons p l : l <> [] -> Py.last_piece (p :: l) = Py.last_piece l.
Proof. unfold Py.last_piece. destruct l; [congruence | reflexivity]. Qed.

Lemma last_piece_length sep : forall s skip,
  String.length (Py.last_piece (Py.split_from sep skip s)) <= String.length s.
Proof.
  induction s as [|c s IH]; intros skip; cbn [Py.split_from]; [simpl; lia|].
  destruct skip as [|k].
  - destruct (prefix sep (String c s)).
    + rewrite last_piece_cons by apply split_from_nonempty.
      pose proof (IH (String.length sep - 1)). simpl. lia.
    + pose proof (last_push_piece c (Py.split_from sep 0 s)).
      pose proof (IH 0). simpl. lia.
  - pose proof (IH k). simpl. lia.
Qed.

Lemma last_piece_shorter sep : sep <> "" -> forall s,
  Py.contains sep s = true ->
  String.length (Py.last_piece (Py.split sep s)) < String.length s.
Proof.
  intros Hsep. unfold Py.split.
  induction s as [|c s IH]; cbn [Py.contains Py.split_from].
  - rewrite orb_false_r. intros H. destruct sep; [congruence | discriminate].
  - destruct (prefix sep (String c s)).
    + intros _. rewrite last_piece_cons by apply split_from_nonempty.
      pose proof (last_piece_length sep s (String.length sep - 1)). simpl. lia.
    + cbn [orb]. intros H. apply IH in H.
      pose proof (last_push_piece c (Py.split_from sep 0 s)). simpl. lia.
Qed.

Lemma not_true_false b : b <> true -> b = false.
Proof. now destruct b. Qed.

End NormalizeFacts.

Module NormalizeClaims.
Import NormalizeFacts.

(** The identity of a hosted repository has the form user/repo, and
    normalizing it again keeps the last segment only. *)
Lemma normalize_not_idempotent :
  normalize_repo_url (normalize_repo_url black_url) <> normalize_repo_url black_url.
Proof. vm_compute. discriminate. Qed.

(** C1, amended. Normalizing a reference twice gives the same as
    normalizing it once exactly when its identity is a single path segment
    (no separator), has no whitespace at its ends and no [.git] in it. *)
Theorem normalize_idempotent_iff :
  forall r,
    normalize_repo_url (normalize_repo_url r) = normalize_repo_url r
    <-> Py.strip (normalize_repo_url r) = normalize_repo_url r
        /\ Py.contains ".git" (normalize_repo_url r) = false
        /\ Py.contains "/" (normalize_repo_url r) = false.
Proof.
  intros r. generalize (normalize_repo_url r). intros n.
  unfold normalize_repo_url. split.
  - intros H.
    pose proof (strip_length n) as H1.
    pose proof (remove_length ".git" (Py.strip n) 0) as H2.
    fold (Py.replace ".git" "" (Py.strip n)) in H2.
    set (u := Py.replace ".git" "" (Py.strip n)) in *.
    assert (H3 : String.length n <= String.length u).
    { destruct (Py.contains "github.com/" u);
        rewrite <- H at 1; apply last_piece_length. }
    assert (Es : Py.strip n = n) by (apply strip_same_length; lia).
    assert (Eg : Py.contains ".git" n = false).
    { apply not_true_false. intros Hc. rewrite <- Es in Hc.
      apply remove_shortens in Hc; [|discriminate]. fold u in Hc. lia. }
    assert (Eu : u = n).
    { subst u. rewrite Es. now apply replace_absent. }
    rewrite Eu in H. split; [exact Es|]. split; [exact Eg|].
    apply not_true_false. intros Hc.
    destruct (Py.contains "github.com/" n) eqn:Em.
    + apply last_piece_shorter in Em; [|discriminate]. rewrite H in Em. lia.
    + apply last_piece_shorter in Hc; [|discriminate]. rewrite H in Hc. lia.
  - intros (Es & Eg & Ep). rewrite Es, (replace_absent _ _ _ Eg).
    destruct (Py.contains "github.com/" n) eqn:Em.
    + apply marker_has_separator in Em. congruence.
    + now rewrite (split_absent _ _ Ep).
Qed.

Example normalize_idempotent_local :
  normalize_repo_url (normalize_repo_url "git@example.org:tools/black.git")
  = normalize_repo_url "git@example.org:tools/black.git".
Proof. reflexivity. Qed.

(** C2, at a reference with [.git] inside: the code removes it, the
    reference definition strips a trailing one only. *)
Theorem normalize_removes_inner_git :
  normalize_repo_url pages_url = "user/myhub.io"
  /\ Reference.normalize pages_url = "user/my.github.io"
  /\ normalize_repo_url pages_url <> Reference.normalize pages_url.
Proof. vm_compute. repeat split. discriminate. Qed.

Example reference_agrees_on_suffix :
  normalize_repo_url "https://github.com/psf/black.git" = "psf/black"
  /\ Reference.normalize "https://github.com/psf/black.git" = "psf/black".
Proof. split; reflexivity. Qed.

End NormalizeClaims.

(** ** What a match is, and which one the matcher gives *)

Module ReSemantics.
Import Re ReSpec ReFacts.

Lemma rep_eq cls greedy k least s :
  rep cls greedy k least s =
  let stop :=
    match least with
    | O => option_map (took EmptyString) (k s)
    | S _ => None
    end in
  let more :=
    match s with
    | String c s' =>
        if cls c then option_map (took_char c) (rep cls greedy k (pred least) s')
        else None
    | EmptyString => None
    end in
  if greedy
  then match more with Some r => Some r | None => stop end
  else match stop with Some r => Some r | None => more end.
Proof. destruct s; reflexivity. Qed.

Lemma option_map_none {A B} (f : A -> B) o : option_map f o = None -> o = None.
Proof. destruct o; [discriminate | reflexivity]. Qed.

(** A repetition finds a match whenever some run of its class can be
    followed by a match of the rest. *)
Lemma rep_complete cls greedy k : forall seg least t,
  all_in cls seg = true -> least <= String.length seg -> k t <> None ->
  rep cls greedy k least (seg ++ t) <> None.
Proof.
  induction seg as [|c seg IH]; intros least t Hall Hlen Hk; rewrite rep_eq.
  - simpl in Hlen. assert (least = 0) by lia. subst least. cbv zeta.
    assert (Hs : option_map (took "") (k ("" ++ t)) <> None).
    { simpl. intros H. now apply option_map_none in H. }
    destruct greedy.
    + destruct (match "" ++ t with String _ _ => _ | EmptyString => _ end);
        [discriminate | exact Hs].
    + destruct (option_map (took "") (k ("" ++ t))); [discriminate | congruence].
  - simpl in Hall. apply andb_prop in Hall as [Hc Hall]. simpl in Hlen.
    cbv zeta. cbn [append]. rewrite Hc.
    assert (Hm : option_map (took_char c) (rep cls greedy k (pred least) (seg ++ t))
                 <> None).
    { intros H. apply option_map_none in H. revert H. apply IH; [assumption | lia | assumption]. }
    destruct greedy.
    + destruct (option_map (took_char c) _); [discriminate | congruence].
    + destruct (match least with O => _ | S _ => _ end); [discriminate | exact Hm].
Qed.

Lemma took_head seg r : hd "" (fst (took seg r)) = seg.
Proof. reflexivity. Qed.

(** How a repetition that succeeds on a non-empty text has gone on. *)
Lemma rep_cases cls greedy k least c s r :
  rep cls greedy k least (String c s) = Some r ->
  (cls c = true
   /\ (exists r', rep cls greedy k (pred least) s = Some r' /\ r = took_char c r')
   /\ (greedy = false -> least <> 0 \/ k (String c s) = None))
  \/ (least = 0
      /\ (exists r0, k (String c s) = Some r0 /\ r = took "" r0)
      /\ (greedy = true -> cls c = false \/ rep cls greedy k (pred least) s = None)).
Proof.
  rewrite rep_eq. cbv zeta. intros H.
  destruct greedy.
  - destruct (cls c) eqn:Ec.
    + destruct (rep cls true k (pred least) s) as [r'|] eqn:Er.
      * left. simpl in H. inversion H; subst.
        split; [reflexivity|]. split; [now exists r' | discriminate].
      * right. simpl in H. destruct least; [|discriminate].
        apply option_map_some in H as (r0 & Hk & ->).
        split; [reflexivity|]. split; [now exists r0 | now right].
    + right. destruct least; [|discriminate].
      apply option_map_some in H as (r0 & Hk & ->).
      split; [reflexivity|]. split; [now exists r0 | now left].
  - destruct least as [|n].
    + destruct (k (String c s)) as [r0|] eqn:Ek.
      * right. simpl in H. inversion H; subst.
        split; [reflexivity|]. split; [now exists r0 | discriminate].
      * left. simpl in H. destruct (cls c) eqn:Ec; [|discriminate].
        apply option_map_some in H as (r' & Hr & ->).
        split; [reflexivity|]. split; [now exists r' | now right].
    + left. destruct (cls c) eqn:Ec; [|discriminate].
      apply option_map_some in H as (r' & Hr & ->).
      split; [reflexivity|]. split; [now exists r' | left; discriminate].
Qed.

Lemma rep_head cls greedy k least s r c :
  rep cls greedy k least s = Some r ->
  hd "" (fst (took_char c r)) = String c (hd "" (fst r)).
Proof.
  intros H. apply rep_sound in H as (seg & rest & r0 & _ & _ & _ & _ & ->).
  reflexivity.
Qed.

(** Among the runs that can be followed by a match of the rest, a greedy
    repetition takes the longest and a lazy one the shortest. *)
Lemma rep_extremal cls greedy k : forall s least r,
  rep cls greedy k least s = Some r ->
  forall seg' t',
    s = seg' ++ t' -> all_in cls seg' = true -> least <= String.length seg' ->
    k t' <> None ->
    if greedy
    then String.length seg' <= String.length (hd "" (fst r))
    else String.length (hd "" (fst r)) <= String.length seg'.
Proof.
  induction s as [|c s IH]; intros least r H seg' t' Hs Hall Hlen Hk.
  - destruct seg'; [|discriminate]. destruct greedy; [simpl; lia|].
    apply rep_sound in H as (seg & rest & r0 & Hsplit & _ & _ & _ & ->).
    destruct seg; [simpl; lia | discriminate].
  - apply rep_cases in H
      as [(Hc & (r' & Hr & ->) & Hstop) | (-> & (r0 & Hk0 & ->) & Hmore)].
    + rewrite (rep_head _ _ _ _ _ _ c Hr).
      destruct seg' as [|c' seg'].
      * destruct greedy; [simpl; lia|]. exfalso.
        simpl in Hs. subst t'. simpl in Hlen.
        destruct (Hstop eq_refl) as [Hl|Hn]; [lia | congruence].
      * inversion Hs; subst c' s. simpl in Hall.
        apply andb_prop in Hall as [_ Hall]. simpl in Hlen.
        pose proof (IH (pred least) r' Hr seg' t' eq_refl Hall
                      ltac:(lia) Hk) as Hi.
        destruct greedy; simpl; lia.
    + rewrite took_head. destruct greedy; [|simpl; lia].
      destruct seg' as [|c' seg']; [simpl; lia|]. exfalso.
      inversion Hs; subst c' s. simpl in Hall.
      apply andb_prop in Hall as [Hc Hall].
      destruct (Hmore eq_refl) as [Hn|Hn]; [congruence|].
      revert Hn. apply rep_complete; [assumption | simpl; lia | assumption].
Qed.

Lemma append_same_length a : forall b x y,
  a ++ x = b ++ y -> String.length a = String.length b -> a = b /\ x = y.
Proof.
  induction a as [|c a IH]; intros [|d b] x y H Hl; simpl in *;
    try discriminate; [now split|].
  inversion H; subst. destruct (IH b x y) as [-> ->]; [assumption | lia|].
  now split.
Qed.

Theorem match_here_matches p : forall s r,
  match_here p s = Some r ->
  s = matched (fst r) ++ snd r /\ Matches p (fst r) (snd r).
Proof.
  induction p as [|i p IH]; intros s r H; simpl in H.
  - inversion H; subst. simpl. now split.
  - destruct i as [l | cls least greedy |].
    + destruct (strip_prefix l s) as [s'|] eqn:E; [|discriminate].
      apply option_map_some in H as (r0 & Hm & ->).
      apply strip_prefix_sound in E. apply IH in Hm as [Hs HM].
      simpl. rewrite append_assoc, <- Hs. now repeat split.
    + apply rep_sound in H as (seg & rest & r0 & -> & Hall & Hlen & Hk & ->).
      apply IH in Hk as [Hs HM]. simpl.
      rewrite append_assoc, <- Hs. now repeat split.
    + destruct (at_end s) eqn:Ee; [|discriminate].
      apply option_map_some in H as (r0 & Hm & ->).
      apply IH in Hm as [Hs HM]. simpl. rewrite <- Hs. now repeat split.
Qed.

Theorem match_here_complete p : forall segs rest,
  Matches p segs rest -> match_here p (matched segs ++ rest) <> None.
Proof.
  induction p as [|i p IH]; intros [|seg segs] rest H; simpl in H;
    try contradiction; [discriminate|].
  destruct H as (Hi & He & HM). apply IH in HM.
  cbn [matched fold_right]. fold (matched segs). rewrite append_assoc.
  destruct i as [l | cls least greedy |]; cbn [match_here].
  - simpl in Hi. subst seg. rewrite strip_prefix_complete.
    intros H. now apply option_map_none in H.
  - destruct Hi as [Hall Hlen]. now apply rep_complete.
  - simpl in Hi. subst seg. cbn [append]. rewrite He.
    intros H. now apply option_map_none in H.
Qed.

(** The matcher gives the match that comes first in the order of
    backtracking. *)
Theorem match_here_best p : forall s r,
  match_here p s = Some r ->
  forall segs' rest',
    s = matched segs' ++ rest' -> Matches p segs' rest' ->
    segs' = fst r \/ better p (fst r) segs'.
Proof.
  induction p as [|i p IH]; intros s r H segs' rest' Hs HM.
  - destruct segs'; [|contradiction]. simpl in H. inversion H; subst. now left.
  - destruct segs' as [|a' l']; [contradiction|].
    destruct HM as (Hi & He & HM).
    cbn [matched fold_right] in Hs. fold (matched l') in Hs.
    rewrite append_assoc in Hs.
    destruct i as [l | cls least greedy |]; cbn [match_here] in H.
    + simpl in Hi. subst a'. subst s. rewrite strip_prefix_complete in H.
      apply option_map_some in H as (r0 & Hm & ->).
      destruct (IH _ _ Hm l' rest' eq_refl HM) as [-> | Hb]; [now left|].
      right. left. now split.
    + destruct Hi as [Hall Hlen].
      pose proof (match_here_complete p l' rest' HM) as Hk.
      pose proof (rep_extremal _ _ _ _ _ _ H a' _ Hs Hall Hlen Hk) as Hext.
      apply rep_sound in H as (seg & rest & r0 & Hsplit & _ & _ & Hk0 & ->).
      rewrite took_head in Hext. cbn [took fst].
      destruct (Nat.eq_dec (String.length seg) (String.length a')) as [El|Nl].
      * rewrite Hsplit in Hs.
        destruct (append_same_length _ _ _ _ Hs El) as [-> Hr].
        destruct (IH _ _ Hk0 l' rest' Hr HM) as [-> | Hb]; [now left|].
        right. left. now split.
      * right. right. destruct greedy; lia.
    + simpl in Hi. subst a'. simpl in Hs. subst s.
      destruct (at_end (matched l' ++ rest')); [|discriminate].
      apply option_map_some in H as (r0 & Hm & ->).
      destruct (IH _ _ Hm l' rest' eq_refl HM) as [-> | Hb]; [now left|].
      right. left. now split.
Qed.

(** The order of backtracking never puts two matches each before the
    other. *)
Lemma better_asym p : forall segs segs', better p segs segs' -> ~ better p segs' segs.
Proof.
  induction p as [|i p IH]; intros [|a l] [|a' l'] H H'; simpl in *;
    try contradiction.
  destruct H as [[E Hb] | H], H' as [[E' Hb'] | H'].
  - now apply (IH l l').
  - subst. destruct i as [? | ? ? [|] |]; simpl in *; try contradiction; lia.
  - subst. destruct i as [? | ? ? [|] |]; simpl in *; try contradiction; lia.
  - destruct i as [? | ? ? [|] |]; simpl in *; try contradiction; lia.
Qed.

Lemma better_irrefl p segs : ~ better p segs segs.
Proof. intros H. exact (better_asym p segs segs H H). Qed.

Lemma match_here_match_at p s segs rest :
  match_here p s = Some (segs, rest) -> match_at p s segs rest.
Proof.
  intros H. destruct (match_here_matches p s _ H) as [Hs HM].
  split; [exact Hs|]. split; [exact HM|].
  intros segs' rest' Hs' HM'. exact (match_here_best p s _ H segs' rest' Hs' HM').
Qed.

Lemma match_here_none p s : match_here p s = None -> no_match_at p s.
Proof.
  intros H segs rest -> HM. now apply match_here_complete in HM.
Qed.

(** [match_at] determines the match. *)
Lemma match_at_unique p t segs rest segs' rest' :
  match_at p t segs rest -> match_at p t segs' rest' ->
  segs = segs' /\ rest = rest'.
Proof.
  intros (Hs & HM & Hbest) (Hs' & HM' & Hbest').
  assert (E : segs = segs').
  { destruct (Hbest segs' rest' Hs' HM') as [E | Hb]; [now symmetry|].
    destruct (Hbest' segs rest Hs HM) as [E | Hb']; [exact E|].
    now elim (better_asym p segs segs'). }
  subst segs'. split; [reflexivity|].
  rewrite Hs in Hs'.
  now destruct (append_same_length _ _ _ _ Hs' eq_refl).
Qed.

Theorem match_here_iff p s segs rest :
  match_here p s = Some (segs, rest) <-> match_at p s segs rest.
Proof.
  split; [apply match_here_match_at|].
  intros H. pose proof H as (Hs & HM & _).
  destruct (match_here p s) as [[sg rs]|] eqn:E.
  - apply match_here_match_at in E.
    destruct (match_at_unique _ _ _ _ _ _ E H) as [-> ->]. reflexivity.
  - apply match_here_none in E. now elim (E segs rest Hs).
Qed.

End ReSemantics.

(** ** The matches that [finditer] gives *)

Module FinditerFacts.
Import Re ReSpec ReFacts ReSemantics.

Lemma finditer_skip p : forall m rest,
  finditer_from p (String.length m) (m ++ rest) = finditer_from p 0 rest.
Proof.
  induction m as [|c m IH]; intros rest; [reflexivity|].
  simpl. apply IH.
Qed.

Lemma finditer_hit p t segs rest :
  never_empty p ->
  match_here p t = Some (segs, rest) ->
  finditer p t = segs :: finditer p rest.
Proof.
  intros Hne H. destruct (match_here_matches p t _ H) as [Hs HM].
  simpl in Hs, HM. pose proof (Hne _ _ HM) as Hm.
  destruct (matched segs) as [|c m] eqn:Em; [congruence|].
  subst t. unfold finditer. cbn [append finditer_from].
  cbn [append] in H. rewrite H. cbn [fst]. rewrite Em.
  replace (String.length (String c m) - 1) with (String.length m)
    by (simpl; lia).
  now rewrite finditer_skip.
Qed.

Lemma finditer_miss p c s :
  match_here p (String c s) = None -> finditer p (String c s) = finditer p s.
Proof. unfold finditer. cbn [finditer_from]. now intros ->. Qed.

Lemma match_here_empty p : never_empty p -> match_here p "" = None.
Proof.
  intros Hne. destruct (match_here p "") as [[segs rest]|] eqn:E; [|reflexivity].
  destruct (match_here_matches p _ _ E) as [Hs HM]. simpl in Hs, HM.
  apply Hne in HM. destruct (matched segs); [congruence | discriminate].
Qed.

(** The first position of a text where the pattern matches, if any. *)
Lemma leftmost p : never_empty p -> forall s,
  ((forall pre t, s = pre ++ t -> match_here p t = None) /\ finditer p s = [])
  \/ (exists pre t r,
        s = pre ++ t /\ match_here p t = Some r
        /\ (forall a b, pre = a ++ b -> b <> "" -> match_here p (b ++ t) = None)
        /\ finditer p s = finditer p t).
Proof.
  intros Hne. induction s as [|c s IH].
  - left. split; [|reflexivity]. intros pre t H.
    destruct pre; [|discriminate]. simpl in H. subst t.
    now apply match_here_empty.
  - destruct (match_here p (String c s)) as [r|] eqn:E.
    + right. exists "", (String c s), r. repeat split; auto.
      intros a b H Hb. destruct a; simpl in H; [congruence | discriminate].
    + destruct IH as [[Hnone Hf] | (pre & t & r & Hs & Hm & Hleft & Hf)].
      * left. split; [|now rewrite finditer_miss].
        intros [|a pre] t H; simpl in H; [now subst t|].
        inversion H; subst. now apply (Hnone pre).
      * right. exists (String c pre), t, r. subst s.
        split; [reflexivity|]. split; [exact Hm|]. split.
        -- intros [|a0 a] b H Hb; simpl in H.
           ++ subst b. exact E.
           ++ inversion H; subst. now apply (Hleft a).
        -- now rewrite finditer_miss.
Qed.

(** [finditer] gives the occurrences of the pattern. *)
Theorem finditer_occurrences p : never_empty p ->
  forall s, Occurrences p s (finditer p s).
Proof.
  intros Hne s.
  remember (String.length s) as n eqn:Hn. revert s Hn.
  induction n as [n IH] using lt_wf_ind. intros s Hn.
  destruct (leftmost p Hne s) as [[Hnone Hf] | (pre & t & [segs rest] & Hs & Hm & Hleft & Hf)].
  - rewrite Hf. constructor. intros pre t H. apply match_here_none.
    now apply (Hnone pre).
  - rewrite Hf, (finditer_hit p t segs rest Hne Hm).
    destruct (match_here_matches p t _ Hm) as [Ht HM]. simpl in Ht, HM.
    pose proof (Hne _ _ HM) as Hnm.
    subst s t. constructor.
    + intros a b H Hb. apply match_here_none. now apply (Hleft a).
    + now apply match_here_match_at.
    + apply (IH (String.length rest)); [|reflexivity].
      subst n. rewrite !length_append.
      destruct (matched segs); [congruence | simpl; lia].
Qed.

Lemma append_split a : forall b x y,
  a ++ x = b ++ y ->
  (exists m, b = a ++ m /\ x = m ++ y) \/ (exists m, a = b ++ m /\ y = m ++ x).
Proof.
  induction a as [|c a IH]; intros b x y H.
  - left. now exists b.
  - destruct b as [|d b].
    + right. now exists (String c a).
    + inversion H; subst.
      destruct (IH b x y) as [(m & -> & ->) | (m & -> & ->)]; [assumption | |].
      * left. now exists m.
      * right. now exists m.
Qed.

(** The occurrences of a pattern in a text are determined. *)
Theorem occurrences_unique p s l :
  Occurrences p s l -> forall l', Occurrences p s l' -> l = l'.
Proof.
  induction 1 as [s Hnone | pre segs rest l Hleft Hm Hocc IH]; intros l' H'.
  - inversion H' as [|pre' segs' rest' l0 Hleft' Hm' Hocc']; subst; [reflexivity|].
    destruct Hm' as (_ & HM' & _).
    now elim (Hnone pre' (matched segs' ++ rest') eq_refl segs' rest' eq_refl).
  - inversion H' as [s0 Hnone' | pre' segs' rest' l0 Hleft' Hm' Hocc' Heq]; subst.
    + destruct Hm as (_ & HM & _).
      now elim (Hnone' pre (matched segs ++ rest) eq_refl segs rest eq_refl).
    + assert (Hpre : pre' = pre /\ matched segs' ++ rest' = matched segs ++ rest).
      { destruct (append_split _ _ _ _ Heq) as [(m & -> & Hx) | (m & -> & Hx)].
        - destruct m as [|c m].
          + rewrite append_nil_r. now split.
          + exfalso. destruct Hm' as (_ & HM' & _).
            apply (Hleft pre' (String c m) eq_refl ltac:(discriminate) segs' rest');
              [|exact HM'].
            now rewrite Hx.
        - destruct m as [|c m].
          + rewrite append_nil_r. split; [reflexivity | now symmetry].
          + exfalso. destruct Hm as (_ & HM & _).
            apply (Hleft' pre (String c m) eq_refl ltac:(discriminate) segs rest);
              [|exact HM].
            now rewrite Hx. }
      destruct Hpre as [-> Ht]. rewrite Ht in Hm'.
      destruct (match_at_unique _ _ _ _ _ _ Hm Hm') as [-> ->].
      f_equal. now apply IH.
Qed.

End FinditerFacts.

(** ** Document scanner *)

Module ScannerClaims.
Import Re ReSpec ReFacts ReSemantics FinditerFacts.

Lemma length_pos_ne s : 1 <= String.length s -> s <> "".
Proof. intros H ->. simpl in H. lia. Qed.

Lemma ne_length_pos s : s <> "" -> 1 <= String.length s.
Proof. destruct s; [congruence | simpl; lia]. Qed.

Lemma block_matches segs rest : Matches block_pattern segs rest <-> is_block segs.
Proof.
  split.
  - intros H. unfold block_pattern in H.
    destruct segs as [|s0 [|s1 [|s2 [|s3 [|s4 [|s5 [|s6 [|s7 [|s8 [|s9 l]]]]]]]]]];
      simpl in H; try tauto; try (now decompose [and] H).
    decompose [and] H. subst.
    exists s1, s2, s3, s5, s7, s8.
    repeat split; auto using length_pos_ne.
  - intros (ws1 & value & gap1 & gap2 & ws2 & token & -> & [H1 H1'] & [H2 H2']
            & H3 & H4 & [H5 H5'] & [H6 H6']).
    simpl. repeat split; auto using ne_length_pos; lia.
Qed.

Lemma block_never_empty : never_empty block_pattern.
Proof.
  intros segs rest H. apply block_matches in H.
  destruct H as (ws1 & value & gap1 & gap2 & ws2 & token & -> & _).
  discriminate.
Qed.

Lemma occurrences_blocks text l :
  Occurrences block_pattern text l -> Forall is_block l.
Proof.
  induction 1 as [|pre segs rest l _ (_ & HM & _) _ IH]; constructor.
  - now apply block_matches in HM.
  - exact IH.
Qed.

Lemma usage_of_match_block md_file segs :
  is_block segs -> usage_of_match md_file segs = usage_of_block md_file segs.
Proof.
  intros (ws1 & value & gap1 & gap2 & ws2 & token & -> & _ & _ & _ & _ & _ & [_ Ht]).
  unfold usage_of_match, usage_of_block, group. simpl nth.
  now rewrite (Tokens.strip_token token Ht).
Qed.

(** A block with an empty line between its two lines gives a usage, and the
    text has no two-line block. *)
Lemma scanner_matches_across_blank_line :
  scan_text "guides/a.md" blank_line_text = [("guides/a.md", "x", "1")]
  /\ TwoLine.scan_text "guides/a.md" blank_line_text = []
  /\ Py.splitlines blank_line_text = ["repo: x"; ""; "rev: 1"]
  /\ scan_text "guides/a.md" blank_line_text
     <> TwoLine.scan_text "guides/a.md" blank_line_text.
Proof. vm_compute. repeat split. discriminate. Qed.

(** C5, amended. The scanner gives one usage for each match of the block
    pattern in the text, taken from left to right without overlap: the
    marker [repo:], whitespace, a value on one line taken lazily, whitespace
    that holds at least one line feed (so empty lines may stand between the
    two lines), the marker [rev:], whitespace and a token.  The usage has
    the file, the normalized identity of the stripped value and the
    token, and the usages keep the order of the matches. *)
Theorem scanner_yields_block_occurrences :
  forall md_file content,
    exists l,
      Occurrences block_pattern content l
      /\ (forall l', Occurrences block_pattern content l' -> l' = l)
      /\ Forall is_block l
      /\ scan_text md_file content = map (usage_of_block md_file) l.
Proof.
  intros md_file content. exists (finditer block_pattern content).
  pose proof (finditer_occurrences _ block_never_empty content) as Hocc.
  pose proof (occurrences_blocks _ _ Hocc) as Hblocks.
  split; [exact Hocc|]. split; [|split; [exact Hblocks|]].
  - intros l' H'. exact (occurrences_unique _ _ _ H' _ Hocc).
  - unfold scan_text. apply map_ext_in. intros segs Hin.
    rewrite Forall_forall in Hblocks. now apply usage_of_match_block, Hblocks.
Qed.

End ScannerClaims.

(** * Further properties *)

Module NormalizeMore.
Import NormalizeFacts.

Lemma rstrip_tail c r :
  Py.rstrip (String c r) = String c r -> Py.rstrip r = r.
Proof.
  simpl. destruct (Py.rstrip r) as [|a x] eqn:E.
  - destruct (py_isspace c); intros H; [discriminate|].
    inversion H; subst. reflexivity.
  - intros H. now inversion H.
Qed.

Lemma rstrip_nonempty c r :
  Py.rstrip (String c r) = String c r -> py_isspace c = true -> r <> "".
Proof.
  intros H Hc ->. simpl in H. rewrite Hc in H. discriminate.
Qed.

Lemma lstrip_append r s :
  Py.rstrip r = r -> Py.lstrip s = s ->
  Py.lstrip (r ++ s) = Py.lstrip r ++ s.
Proof.
  intros Hr Hs. induction r as [|c r IH]; [exact Hs|].
  cbn [append Py.lstrip]. destruct (py_isspace c) eqn:Ec; [|reflexivity].
  apply IH. now apply rstrip_tail in Hr.
Qed.

Lemma rstrip_lstrip r : Py.rstrip r = r -> Py.rstrip (Py.lstrip r) = Py.lstrip r.
Proof.
  induction r as [|c r IH]; intros H; [reflexivity|].
  cbn [Py.lstrip]. destruct (py_isspace c); [|exact H].
  apply IH. now apply rstrip_tail in H.
Qed.

Lemma rstrip_append a b :
  Py.rstrip b <> "" -> Py.rstrip (a ++ b) = a ++ Py.rstrip b.
Proof.
  intros Hb. induction a as [|c a IH]; [reflexivity|].
  cbn [append Py.rstrip]. rewrite IH.
  destruct (a ++ Py.rstrip b) eqn:E; [|reflexivity].
  destruct a; simpl in E; [congruence | discriminate].
Qed.

(** No occurrence of [.git] starts in [u] and ends in a [.git] put after
    it. *)
Lemma no_straddle c u :
  prefix ".git" (String c u) = false ->
  prefix ".git" (String c u ++ ".git") = false.
Proof.
  cbn [append prefix]. destruct (ascii_dec "." c) as [_|_]; [|reflexivity].
  destruct u as [|c1 [|c2 [|c3 u]]]; cbn [append prefix];
    repeat match goal with
           | |- context [ascii_dec ?a ?b] => destruct (ascii_dec a b)
           end;
    try reflexivity; try discriminate; try congruence.
  destruct u; simpl; discriminate.
Qed.

Lemma prefix_append p s t : prefix p s = true -> prefix p (s ++ t) = true.
Proof.
  rewrite !prefix_iff. intros [r ->]. exists (r ++ t). now rewrite append_assoc.
Qed.

Lemma prefix_length p s : prefix p s = true -> String.length p <= String.length s.
Proof.
  rewrite prefix_iff. intros [r ->]. rewrite length_append. lia.
Qed.

Lemma remove_git_suffix : forall u k,
  k <= String.length u ->
  Py.replace_from ".git" "" k (u ++ ".git") = Py.replace_from ".git" "" k u.
Proof.
  induction u as [|c u IH]; intros k Hk.
  - simpl in Hk. assert (k = 0) by lia. subst k. reflexivity.
  - cbn [append Py.replace_from]. destruct k as [|k].
    + destruct (prefix ".git" (String c u)) eqn:E.
      * pose proof (prefix_append _ _ ".git" E) as E'. cbn [append] in E'.
        rewrite E'. apply prefix_length in E. simpl in E.
        cbn [append]. apply IH. simpl in *. lia.
      * pose proof (no_straddle _ _ E) as E'. cbn [append] in E'.
        rewrite E'. f_equal. apply IH. lia.
    + apply IH. simpl in Hk. lia.
Qed.

(** X1. A trailing [.git] does not change the identity of a reference that
    does not end with whitespace. *)
Theorem normalize_ignores_git_suffix :
  forall r,
    Py.rstrip r = r ->
    normalize_repo_url (r ++ ".git") = normalize_repo_url r.
Proof.
  intros r Hr. unfold normalize_repo_url.
  assert (E : Py.replace ".git" "" (Py.strip (r ++ ".git"))
              = Py.replace ".git" "" (Py.strip r)).
  { unfold Py.strip. rewrite (lstrip_append r ".git" Hr eq_refl).
    rewrite rstrip_append by discriminate.
    change (Py.rstrip ".git") with ".git".
    rewrite (rstrip_lstrip r Hr).
    unfold Py.replace. apply remove_git_suffix. lia. }
  now rewrite E.
Qed.

Lemma normalize_ignores_git_suffix_witness :
  normalize_repo_url ("https://github.com/psf/black" ++ ".git")
  = normalize_repo_url "https://github.com/psf/black".
Proof. apply normalize_ignores_git_suffix. reflexivity. Defined.

End NormalizeMore.

Module SplitFacts.
Import NormalizeFacts.

Lemma split_skip sep : forall m rest,
  Py.split_from sep (String.length m) (m ++ rest) = Py.split_from sep 0 rest.
Proof.
  induction m as [|c m IH]; intros rest; [reflexivity|]. simpl. apply IH.
Qed.

Lemma split_at_sep sep rest :
  sep <> "" -> Py.split sep (sep ++ rest) = "" :: Py.split sep rest.
Proof.
  intros Hsep. destruct sep as [|c sep]; [congruence|].
  unfold Py.split. cbn [append Py.split_from].
  assert (E : prefix (String c sep) (String c (sep ++ rest)) = true)
    by (apply prefix_iff; now exists rest).
  rewrite E. f_equal.
  replace (String.length (String c sep) - 1) with (String.length sep)
    by (simpl; lia).
  apply split_skip.
Qed.

Lemma split_no_sep sep c s :
  prefix sep (String c s) = false ->
  Py.split sep (String c s) = Py.push_piece c (Py.split sep s).
Proof. unfold Py.split. cbn [Py.split_from]. now intros ->. Qed.

Lemma split_nonempty sep s : Py.split sep s <> [].
Proof. apply split_from_nonempty. Qed.

(** The last piece of [s.split(sep)] is the whole of [s] when [sep] does
    not occur, and otherwise comes right after an occurrence of [sep]. *)
Lemma last_piece_after_sep sep : sep <> "" -> forall s,
  (Py.contains sep s = false /\ Py.split sep s = [s])
  \/ (Py.contains sep s = true
      /\ (exists p, s = p ++ sep ++ Py.last_piece (Py.split sep s))
      /\ 2 <= List.length (Py.split sep s)).
Proof.
  intros Hsep s. remember (String.length s) as n eqn:Hn. revert s Hn.
  induction n as [n IH] using lt_wf_ind. intros s Hn.
  destruct (Py.contains sep s) eqn:Ec.
  - right. split; [reflexivity|].
    destruct (prefix sep s) eqn:Ep.
    + apply prefix_iff in Ep as [rest ->].
      rewrite (split_at_sep sep rest Hsep).
      rewrite last_piece_cons by apply split_nonempty.
      split.
      * destruct (IH (String.length rest)) with (s := rest)
          as [[_ E] | [_ [[p Hp] _]]]; [|reflexivity| |].
        -- subst n. rewrite length_append. destruct sep; [congruence | simpl; lia].
        -- rewrite E. now exists "".
        -- exists (sep ++ p). rewrite append_assoc. now rewrite <- Hp.
      * pose proof (split_nonempty sep rest).
        destruct (Py.split sep rest); [congruence | simpl; lia].
    + destruct s as [|c s].
      { cbn [Py.contains] in Ec. rewrite orb_false_r in Ec. congruence. }
      cbn [Py.contains] in Ec. rewrite Ep in Ec. cbn [orb] in Ec.
      rewrite (split_no_sep sep c s Ep).
      destruct (IH (String.length s)) with (s := s)
        as [[E _] | [_ [[p Hp] Hlen]]];
        [subst n; simpl; lia | reflexivity | congruence |].
      destruct (Py.split sep s) as [|q [|q2 l]] eqn:Es;
        [simpl in Hlen; lia | simpl in Hlen; lia |].
      split; [|simpl; lia].
      exists (String c p). cbn [Py.push_piece]. cbn [append].
      rewrite Hp at 1. unfold Py.last_piece. reflexivity.
  - left. split; [reflexivity | now apply split_absent].
Qed.

(** The last piece has no occurrence of the separator. *)
Lemma last_piece_no_sep sep : sep <> "" -> forall s,
  Py.contains sep (Py.last_piece (Py.split sep s)) = false.
Proof.
  intros Hsep s. remember (String.length s) as n eqn:Hn. revert s Hn.
  induction n as [n IH] using lt_wf_ind. intros s Hn.
  destruct (prefix sep s) eqn:Ep.
  - apply prefix_iff in Ep as [rest ->].
    rewrite (split_at_sep sep rest Hsep).
    rewrite last_piece_cons by apply split_nonempty.
    apply (IH (String.length rest)); [|reflexivity].
    subst n. rewrite length_append. destruct sep; [congruence | simpl; lia].
  - destruct s as [|c s].
    + unfold Py.split, Py.last_piece. cbn [Py.split_from last Py.contains].
      rewrite orb_false_r. exact Ep.
    + rewrite (split_no_sep sep c s Ep).
      pose proof (IH (String.length s) ltac:(subst n; simpl; lia) s eq_refl) as Hi.
      destruct (last_piece_after_sep sep Hsep s) as [[Hc E] | [_ [_ Hlen]]].
      * rewrite E. unfold Py.last_piece. cbn [Py.push_piece last].
        cbn [Py.contains]. now rewrite Ep, Hc.
      * destruct (Py.split sep s) as [|q [|q2 l]] eqn:Es;
          [simpl in Hlen; lia | simpl in Hlen; lia |].
        exact Hi.
Qed.

End SplitFacts.

Module NormalizeShape.
Import NormalizeFacts SplitFacts.

(** X2. The identity is the text after the last hosting marker of the
    cleaned reference (stripped, with [.git] removed); without a marker it
    is the text after the last separator, or the whole of it when there is
    none.  It never holds the marker, and in the second case no separator. *)
Theorem identity_after_last_marker :
  forall r,
    let u := Py.replace ".git" "" (Py.strip r) in
    let n := normalize_repo_url r in
    (Py.contains "github.com/" u = true ->
       (exists p, u = p ++ "github.com/" ++ n)
       /\ Py.contains "github.com/" n = false)
    /\ (Py.contains "github.com/" u = false ->
        ((exists p, u = p ++ "/" ++ n) \/ (u = n /\ Py.contains "/" u = false))
        /\ Py.contains "/" n = false
        /\ Py.contains "github.com/" n = false).
Proof.
  intros r u n. unfold n, normalize_repo_url. fold u. split; intros Hm; rewrite Hm.
  - split; [|apply last_piece_no_sep; discriminate].
    destruct (last_piece_after_sep "github.com/" ltac:(discriminate) u)
      as [[Hc _] | [_ [Hp _]]]; [congruence | exact Hp].
  - assert (Hs : Py.contains "/" (Py.last_piece (Py.split "/" u)) = false)
      by (apply last_piece_no_sep; discriminate).
    split; [|split; [exact Hs|]].
    + destruct (last_piece_after_sep "/" ltac:(discriminate) u)
        as [[Hc E] | [_ [Hp _]]]; [|now left].
      right. rewrite E. now split.
    + apply not_true_false. intros Hc. apply marker_has_separator in Hc. congruence.
Qed.

End NormalizeShape.

Module PrefixFacts.
Import Re ParserFacts.

Lemma found_skip p c s :
  match_here p (String c s) = None -> found p (String c s) = found p s.
Proof.
  unfold found. cbn [search]. intros ->. now destruct (search p s).
Qed.

Lemma lit_starts_with_r l p : starts_with_r (Lit (String "r" l) :: p).
Proof.
  intros c s Hc. cbn [match_here strip_prefix].
  unfold not_r in Hc. apply negb_true_iff in Hc.
  rewrite Ascii.eqb_sym in Hc. now rewrite Hc.
Qed.

Lemma space_not_r c : py_isspace c = true -> not_r c = true.
Proof.
  intros H. unfold not_r. apply negb_true_iff. apply Ascii.eqb_neq.
  intros ->. discriminate.
Qed.

Lemma found_rstrip_lstrip p : starts_with_r p -> forall l,
  found p (Py.rstrip l) = found p (Py.rstrip (Py.lstrip l)).
Proof.
  intros Hp. induction l as [|c l IH]; [reflexivity|].
  cbn [Py.lstrip]. destruct (py_isspace c) eqn:Ec; [|reflexivity].
  rewrite <- IH. cbn [Py.rstrip]. rewrite Ec.
  destruct (Py.rstrip l) as [|a x] eqn:E; [reflexivity|].
  apply found_skip. apply Hp. now apply space_not_r.
Qed.

Lemma found_strip_cons p : starts_with_r p -> forall c l,
  not_r c = true ->
  found p (Py.strip (String c l)) = found p (Py.strip l).
Proof.
  intros Hp c l Hc. unfold Py.strip. cbn [Py.lstrip].
  destruct (py_isspace c) eqn:Ec; [reflexivity|].
  rewrite <- (found_rstrip_lstrip p Hp l).
  cbn [Py.rstrip]. rewrite Ec.
  assert (E : match Py.rstrip l with
              | "" => String c ""
              | String a s => String c (String a s)
              end = String c (Py.rstrip l)) by now destruct (Py.rstrip l).
  rewrite E. apply found_skip. now apply Hp.
Qed.

Lemma repo_line_found line :
  repo_line line =
  option_map (fun segs => normalize_repo_url (group segs 2))
             (found repo_pattern (Py.strip line)).
Proof.
  unfold repo_line, found. now destruct (search repo_pattern (Py.strip line)).
Qed.

Lemma rev_token_found line :
  rev_token line =
  option_map (fun segs => group segs 2) (found rev_pattern (Py.strip line)).
Proof.
  unfold rev_token, found. now destruct (search rev_pattern (Py.strip line)).
Qed.

Lemma parse_line_cons st c line :
  not_r c = true -> parse_line st (String c line) = parse_line st line.
Proof.
  intros Hc. destruct st as [tools cur]. rewrite !parse_line_eq.
  rewrite !repo_line_found, !rev_token_found.
  rewrite (found_strip_cons repo_pattern (lit_starts_with_r _ _) c line Hc).
  rewrite (found_strip_cons rev_pattern (lit_starts_with_r _ _) c line Hc).
  reflexivity.
Qed.

End PrefixFacts.

Module ParserMore.
Import ParserFacts PrefixFacts.

(** X3. What stands before the markers does not count: a line treated
    after any text without the letter [r], such as a comment sign, a dash
    or an indentation, is treated as the line itself. *)
Theorem parse_line_ignores_prefix :
  forall st pre line,
    all_in not_r pre = true ->
    parse_line st (pre ++ line) = parse_line st line.
Proof.
  intros st pre line. induction pre as [|c pre IH]; intros H; [reflexivity|].
  simpl in H. apply andb_prop in H as [Hc Hpre].
  cbn [append]. rewrite (parse_line_cons st c _ Hc). now apply IH.
Qed.

Lemma parse_line_ignores_prefix_witness :
  parse_line (Dict.empty, None) ("  # - " ++ "repo: https://github.com/psf/black")
  = parse_line (Dict.empty, None) "repo: https://github.com/psf/black".
Proof. apply parse_line_ignores_prefix. reflexivity. Defined.

End ParserMore.

Module EntryFacts.
Import Re ReSpec ReFacts ReSemantics ParserFacts PrefixFacts NormalizeFacts.
Import NormalizeMore.

Lemma all_in_append cls a b :
  all_in cls (a ++ b) = all_in cls a && all_in cls b.
Proof.
  induction a as [|c a IH]; simpl; [reflexivity|]. now rewrite IH, andb_assoc.
Qed.

Lemma append_cancel_l a x y : a ++ x = a ++ y -> x = y.
Proof. intros H. now destruct (append_same_length a a x y H eq_refl). Qed.

(** A run of one class that is followed by a character outside it cannot
    be overrun by another run of the class. *)
Lemma run_bounded cls run c tail a x :
  run ++ String c tail = a ++ x ->
  all_in cls a = true -> cls c = false ->
  String.length a <= String.length run.
Proof.
  intros H Ha Hc.
  destruct (FinditerFacts.append_split _ _ _ _ H) as [(m & -> & Hm) | (m & -> & _)].
  - destruct m as [|c' m]; [rewrite append_nil_r; lia|].
    inversion Hm; subst c'. rewrite all_in_append in Ha.
    apply andb_prop in Ha as [_ Ha]. simpl in Ha. rewrite Hc in Ha. discriminate.
  - rewrite length_append. lia.
Qed.

Lemma first_nonspace v :
  v <> "" -> Py.lstrip v = v -> exists c t, v = String c t /\ py_isspace c = false.
Proof.
  destruct v as [|c t]; [congruence|]. intros _ H. exists c, t.
  split; [reflexivity|]. simpl in H. destruct (py_isspace c) eqn:E; [|reflexivity].
  pose proof (lstrip_length t) as Hl. apply (f_equal String.length) in H.
  simpl in H. lia.
Qed.

Lemma strip_fixed v : Py.strip v = v -> Py.lstrip v = v /\ Py.rstrip v = v.
Proof.
  intros H. unfold Py.strip in H.
  pose proof (rstrip_length (Py.lstrip v)). pose proof (lstrip_length v).
  assert (E : Py.lstrip v = v)
    by (apply lstrip_same_length; apply (f_equal String.length) in H; lia).
  split; [exact E | now rewrite E in H].
Qed.

Lemma search_here p s r : match_here p s = Some r -> search p s = Some ("", r).
Proof. intros H. destruct s; simpl; now rewrite H. Qed.

Lemma repo_line_value ws value :
  all_in space ws = true -> ws <> "" ->
  value <> "" -> all_in dot value = true -> Py.strip value = value ->
  repo_line ("repo:" ++ ws ++ value) = Some (normalize_repo_url value).
Proof.
  intros Hws Hne Hv Hdot Hstrip.
  destruct (strip_fixed value Hstrip) as [Hl Hr].
  destruct (first_nonspace value Hv Hl) as (c & tail & Ev & Hc).
  assert (Estrip : Py.strip ("repo:" ++ ws ++ value) = "repo:" ++ ws ++ value).
  { unfold Py.strip. change (Py.lstrip ("repo:" ++ ws ++ value))
      with ("repo:" ++ ws ++ value).
    rewrite <- !append_assoc. rewrite rstrip_append by (rewrite Hr; exact Hv).
    now rewrite Hr. }
  assert (Hm : match_here repo_pattern ("repo:" ++ ws ++ value)
               = Some (["repo:"; ws; value; ""], "")).
  { apply match_here_iff. split; [|split].
    - simpl. now rewrite !append_nil_r.
    - simpl. repeat split; auto.
      + destruct ws; [congruence | simpl; lia].
      + destruct value; [congruence | simpl; lia].
    - intros segs' rest' Hs HM.
      destruct segs' as [|a0 [|a1 [|a2 [|a3 [|a4 l]]]]]; simpl in HM; try tauto.
      destruct HM as (-> & _ & (Ha1 & _) & _ & (Ha2 & _) & _ & -> & Hend & _).
      simpl in Hs, Hend. apply (append_cancel_l "repo:") in Hs.
      rewrite append_nil_r, append_assoc in Hs.
      assert (Hle : String.length a1 <= String.length ws).
      { apply (run_bounded space ws c tail a1 (a2 ++ rest'));
          [now rewrite <- Ev | exact Ha1 | exact Hc]. }
      destruct (Nat.eq_dec (String.length a1) (String.length ws)) as [El|Nl].
      + symmetry in Hs. destruct (append_same_length _ _ _ _ Hs El) as [-> Hv2].
        left. f_equal. f_equal.
        destruct rest' as [|d [|d' rest']]; simpl in Hend; try discriminate.
        * now rewrite append_nil_r in Hv2; subst.
        * exfalso. apply Ascii.eqb_eq in Hend. subst d.
          rewrite <- Hv2, all_in_append in Hdot.
          apply andb_prop in Hdot as [_ Hd]. discriminate.
      + right. simpl. left. split; [reflexivity|]. right. lia. }
  unfold repo_line. rewrite Estrip, (search_here _ _ _ Hm). reflexivity.
Qed.

Lemma rev_token_value ws tok trailing :
  all_in space ws = true -> ws <> "" -> is_token tok ->
  (trailing = "" \/ exists c t, trailing = String c t /\ py_isspace c = true) ->
  Py.rstrip trailing = trailing ->
  rev_token ("rev:" ++ ws ++ tok ++ trailing) = Some tok.
Proof.
  intros Hws Hne [Htok Hall] Htr Hrs.
  assert (Hrt : Py.rstrip (tok ++ trailing) = tok ++ trailing).
  { destruct Htr as [-> | (d & t & -> & _)].
    - rewrite append_nil_r. now apply Tokens.rstrip_token.
    - rewrite rstrip_append; rewrite Hrs; [reflexivity | discriminate]. }
  assert (Hrne : Py.rstrip (tok ++ trailing) <> "").
  { rewrite Hrt. destruct tok; [congruence | discriminate]. }
  assert (Estrip : Py.strip ("rev:" ++ ws ++ tok ++ trailing)
                   = "rev:" ++ ws ++ tok ++ trailing).
  { unfold Py.strip. change (Py.lstrip ("rev:" ++ ws ++ tok ++ trailing))
      with ("rev:" ++ ws ++ tok ++ trailing).
    rewrite <- (append_assoc "rev:" ws). rewrite rstrip_append by exact Hrne.
    now rewrite Hrt. }
  destruct tok as [|c tail] eqn:Etok; [congruence|].
  assert (Hc : py_isspace c = false).
  { simpl in Hall. apply andb_prop in Hall as [Hc _].
    unfold nonspace in Hc. now apply negb_true_iff in Hc. }
  rewrite <- Etok in *.
  assert (Hm : match_here rev_pattern ("rev:" ++ ws ++ tok ++ trailing)
               = Some (["rev:"; ws; tok], trailing)).
  { apply match_here_iff. split; [|split].
    - simpl. now rewrite append_nil_r, !append_assoc.
    - simpl. repeat split; auto.
      + destruct ws; [congruence | simpl; lia].
      + rewrite Etok. simpl. lia.
    - intros segs' rest' Hs HM.
      destruct segs' as [|a0 [|a1 [|a2 [|a3 l]]]]; simpl in HM; try tauto.
      destruct HM as (-> & _ & (Ha1 & _) & _ & (Ha2 & _) & _).
      simpl in Hs. apply (append_cancel_l "rev:") in Hs.
      rewrite append_nil_r, append_assoc in Hs.
      assert (Hle : String.length a1 <= String.length ws).
      { apply (run_bounded space ws c (tail ++ trailing) a1 (a2 ++ rest'));
          [|exact Ha1 | exact Hc].
        rewrite <- Hs, Etok. reflexivity. }
      destruct (Nat.eq_dec (String.length a1) (String.length ws)) as [El|Nl].
      + symmetry in Hs. destruct (append_same_length _ _ _ _ Hs El) as [-> Hv2].
        assert (Hle2 : String.length a2 <= String.length tok).
        { destruct Htr as [-> | (d & t & -> & Hd)].
          - rewrite append_nil_r in Hv2. rewrite <- Hv2, length_append. lia.
          - apply (run_bounded nonspace tok d t a2 rest');
              [now symmetry | exact Ha2 |].
            unfold nonspace. now rewrite Hd. }
        destruct (Nat.eq_dec (String.length a2) (String.length tok)) as [El2|Nl2].
        * destruct (append_same_length _ _ _ _ Hv2 El2) as [-> _]. now left.
        * right. simpl. left. split; [reflexivity|]. left.
          split; [reflexivity|]. right. lia.
      + right. simpl. left. split; [reflexivity|]. right. lia. }
  unfold rev_token. rewrite Estrip, (search_here _ _ _ Hm). reflexivity.
Qed.

Lemma lstrip_suffix s : exists a, s = a ++ Py.lstrip s.
Proof.
  induction s as [|c s [a IH]]; [now exists ""|].
  simpl. destruct (py_isspace c); [|now exists ""].
  exists (String c a). simpl. now rewrite <- IH.
Qed.

Lemma rstrip_prefix s : exists b, s = Py.rstrip s ++ b.
Proof.
  induction s as [|c s [b IH]]; [now exists ""|].
  simpl. destruct (Py.rstrip s) as [|a x] eqn:E.
  - destruct (py_isspace c).
    + now exists (String c s).
    + exists s. reflexivity.
  - exists b. rewrite IH at 1. reflexivity.
Qed.

(** A line without [repo:] is not a repository line. *)
Lemma no_marker_no_repo_line line :
  Py.contains "repo:" line = false -> repo_line line = None.
Proof.
  intros H. unfold repo_line.
  destruct (search repo_pattern (Py.strip line)) as [[pre [segs rest]]|] eqn:E;
    [|reflexivity].
  exfalso. apply search_sound in E as (t & Hs & Hm).
  apply match_here_matches in Hm as [Ht HM]. simpl in Ht, HM.
  destruct segs as [|a0 segs]; simpl in HM; [tauto|].
  destruct HM as (-> & _). simpl matched in Ht.
  destruct (lstrip_suffix line) as [a Ha].
  destruct (rstrip_prefix (Py.lstrip line)) as [b Hb].
  fold (Py.strip line) in Hb.
  assert (Hc : Py.contains "repo:" line = true).
  { apply contains_iff. exists (a ++ pre), (matched segs ++ rest ++ b).
    rewrite Ha at 1. rewrite Hb, Hs, Ht.
    rewrite !append_assoc. reflexivity. }
  congruence.
Qed.

Lemma repo_line_prefix pre line :
  all_in not_r pre = true -> repo_line (pre ++ line) = repo_line line.
Proof.
  induction pre as [|c pre IH]; intros H; [reflexivity|].
  simpl in H. apply andb_prop in H as [Hc Hpre]. cbn [append].
  rewrite repo_line_found.
  rewrite (found_strip_cons repo_pattern (lit_starts_with_r _ _) c _ Hc).
  rewrite <- repo_line_found. now apply IH.
Qed.

Lemma rev_token_prefix pre line :
  all_in not_r pre = true -> rev_token (pre ++ line) = rev_token line.
Proof.
  induction pre as [|c pre IH]; intros H; [reflexivity|].
  simpl in H. apply andb_prop in H as [Hc Hpre]. cbn [append].
  rewrite rev_token_found.
  rewrite (found_strip_cons rev_pattern (lit_starts_with_r _ _) c _ Hc).
  rewrite <- rev_token_found. now apply IH.
Qed.

Lemma repo_entry_line_sets line value :
  repo_entry_line line value -> repo_line line = Some (normalize_repo_url value).
Proof.
  intros (pre & ws & -> & Hpre & Hws & Hne & Hv & Hdot & Hstrip).
  rewrite repo_line_prefix by exact Hpre. now apply repo_line_value.
Qed.

Lemma rev_entry_line_token line tok :
  rev_entry_line line tok -> repo_line line = None /\ rev_token line = Some tok.
Proof.
  intros (pre & ws & t & -> & Hpre & Hws & Hne & Htok & Htr & Hrs & Hno).
  split; [now apply no_marker_no_repo_line|].
  rewrite rev_token_prefix by exact Hpre. now apply rev_token_value.
Qed.

End EntryFacts.

Module EntryClaims.
Import ParserFacts EntryFacts.

(** X4. An entry of the config, written as a repository line and a
    revision line, binds its token to the identity of its reference: after
    the two lines the map gives the token for the identity, and no identity
    is pending. *)
Theorem config_entry_binds :
  forall tools cur l_repo l_rev value tok,
    repo_entry_line l_repo value ->
    rev_entry_line l_rev tok ->
    normalize_repo_url value <> "" ->
    parse_lines (tools, cur) [l_repo; l_rev]
    = (Dict.set tools (normalize_repo_url value) tok, None)
    /\ Dict.get (fst (parse_lines (tools, cur) [l_repo; l_rev]))
                (normalize_repo_url value) = Some tok.
Proof.
  intros tools cur l_repo l_rev value tok Hrepo Hrev Hid.
  apply repo_entry_line_sets in Hrepo.
  apply rev_entry_line_token in Hrev as [Hnone Htok].
  rewrite (repo_then_rev tools cur l_repo l_rev _ tok Hrepo Hnone Htok).
  apply truthy_ne in Hid. rewrite Hid. split; [reflexivity|].
  apply DictFacts.get_set_same.
Qed.

Lemma config_entry_binds_witness :
  parse_lines (Dict.empty, None)
    ["# - repo: https://github.com/psf/black.git"; "#   rev: 24.4.0  # frozen"]
  = (Dict.set Dict.empty (normalize_repo_url "https://github.com/psf/black.git")
       "24.4.0", None)
  /\ Dict.get (fst (parse_lines (Dict.empty, None)
       ["# - repo: https://github.com/psf/black.git"; "#   rev: 24.4.0  # frozen"]))
       (normalize_repo_url "https://github.com/psf/black.git") = Some "24.4.0".
Proof.
  apply config_entry_binds.
  - exists "# - ", " ". repeat split; try reflexivity; discriminate.
  - exists "#   ", " ", "  # frozen".
    repeat split; try reflexivity; try discriminate.
    right. exists " "%char, " # frozen". split; reflexivity.
  - vm_compute. discriminate.
Defined.

End EntryClaims.

Module LinesFacts.
Import NormalizeFacts EntryFacts.

(** Every line of [s.splitlines()] is a part of [s], and the first line
    is at its start. *)
Lemma splitlines_parts : forall n s,
  String.length s <= n ->
  (forall p ps, Py.splitlines s = p :: ps -> exists b, s = p ++ b)
  /\ (forall l, In l (Py.splitlines s) -> exists a b, s = a ++ l ++ b).
Proof.
  induction n as [|n IH]; intros s Hn.
  - destruct s; [|simpl in Hn; lia]. split; [discriminate | intros l []].
  - destruct s as [|c s]; [split; [discriminate | intros l []]|].
    simpl in Hn. cbn [Py.splitlines].
    assert (Hnil : forall t : string, exists a b, t = a ++ "" ++ b)
      by (intros t; now exists "", t).
    destruct (Ascii.eqb c CR).
    + destruct s as [|c' s'].
      * split; [intros p ps H; inversion H; now exists (String c "")|].
        intros l [<-|[]]. apply Hnil.
      * destruct (Ascii.eqb c' LF).
        -- split; [intros p ps H; inversion H; now exists (String c (String c' s'))|].
           intros l [<-|Hin]; [apply Hnil|].
           destruct (IH s' ltac:(simpl in Hn; lia)) as [_ H2].
           destruct (H2 l Hin) as (a & b & ->).
           now exists (String c (String c' a)), b.
        -- split; [intros p ps H; inversion H; now exists (String c (String c' s'))|].
           intros l [<-|Hin]; [apply Hnil|].
           destruct (IH (String c' s') ltac:(lia)) as [_ H2].
           destruct (H2 l Hin) as (a & b & Hab).
           exists (String c a), b. simpl. now rewrite <- Hab.
    + destruct (py_islinebreak c).
      * split; [intros p ps H; inversion H; now exists (String c s)|].
        intros l [<-|Hin]; [apply Hnil|].
        destruct (IH s ltac:(lia)) as [_ H2].
        destruct (H2 l Hin) as (a & b & ->). now exists (String c a), b.
      * destruct (IH s ltac:(lia)) as [H1 H2].
        destruct (Py.splitlines s) as [|q qs] eqn:E; cbn [Py.push_piece].
        -- split; [intros p ps H; inversion H; now exists s|].
           intros l [<-|[]]. now exists "", s.
        -- destruct (H1 q qs eq_refl) as [b Hb].
           split; [intros p ps H; inversion H; exists b; simpl; now rewrite <- Hb|].
           intros l [<-|Hin].
           ++ exists "", b. simpl. now rewrite <- Hb.
           ++ destruct (H2 l (or_intror Hin)) as (a & b' & ->).
              now exists (String c a), b'.
Qed.

Lemma contains_part sub a l b :
  Py.contains sub l = true -> Py.contains sub (a ++ l ++ b) = true.
Proof.
  rewrite !contains_iff. intros (pre & post & ->).
  exists (a ++ pre), (post ++ b). now rewrite !append_assoc.
Qed.

(** A text without [repo:] has no repository line. *)
Lemma no_marker_no_repo_lines content :
  Py.contains "repo:" content = false ->
  Forall (fun l => repo_line l = None) (Py.splitlines content).
Proof.
  intros H. apply Forall_forall. intros l Hin.
  apply no_marker_no_repo_line. apply not_true_false. intros Hc.
  destruct (splitlines_parts _ content (le_n _)) as [_ H2].
  destruct (H2 l Hin) as (a & b & Hab).
  rewrite Hab in H. rewrite (contains_part _ a l b Hc) in H. discriminate.
Qed.

Lemma nothing_pending_nothing_bound lines : forall tools,
  Forall (fun l => repo_line l = None) lines ->
  parse_lines (tools, None) lines = (tools, None).
Proof.
  induction lines as [|l lines IH]; intros tools H; [reflexivity|].
  inversion H as [|? ? Hl Hrest]; subst.
  change (parse_lines (tools, None) (l :: lines))
    with (parse_lines (parse_line (tools, None) l) lines).
  rewrite ParserFacts.parse_line_eq, Hl. now apply IH.
Qed.

End LinesFacts.

Module RunFacts.
Import ParserFacts ReconcilerFacts ReconcilerClaims LinesFacts.

(** X6. A config file that exists but never says [repo:] gives no
    canonical version: the run prints its first line and the message, and
    ends with status 1 before any guide is read. *)
Theorem config_without_repo_is_fatal :
  forall w content,
    config_file w = Some content ->
    Py.contains "repo:" content = false ->
    parse_config_text content = Dict.empty
    /\ run_main w = ([banner_line; "No versions found in config file."], 1%Z).
Proof.
  intros w content Hc Hno.
  assert (E : parse_config_text content = Dict.empty).
  { unfold parse_config_text.
    now rewrite nothing_pending_nothing_bound by now apply no_marker_no_repo_lines. }
  split; [exact E|].
  unfold run_main, main, parse_pre_commit_config. rewrite Hc.
  unfold bind, print, ret, sys_exit. rewrite E. reflexivity.
Qed.

Lemma config_without_repo_is_fatal_witness :
  run_main {| config_path := "/p/c.yaml";
              config_file := Some "default_stages: [commit]";
              guide_files := [("guides/a.md", black_config)] |}
  = ([banner_line; "No versions found in config file."], 1%Z).
Proof.
  apply (config_without_repo_is_fatal _ "default_stages: [commit]");
    reflexivity.
Defined.

Lemma diagnostic_length cv u :
  List.length (diagnostic cv u) = if mismatched cv u then 4 else 0.
Proof.
  destruct u as [[f key] rev]. unfold diagnostic, mismatched, resolved_revision.
  destruct (Dict.get cv key) as [v|].
  - now destruct (rev =? v).
  - destruct (possible_match cv key) as [c|]; [|reflexivity].
    destruct (Dict.get cv c) as [c_rev|]; [|reflexivity].
    now destruct (rev =? c_rev).
Qed.

Lemma diagnostics_length cv usages :
  List.length (flat_map (diagnostic cv) usages)
  = 4 * List.length (filter (mismatched cv) usages).
Proof.
  induction usages as [|u usages IH]; [reflexivity|].
  cbn [flat_map filter]. rewrite length_app, IH, diagnostic_length.
  destruct (mismatched cv u); simpl; lia.
Qed.

Lemma mismatched_or_unresolved cv usages :
  List.length (filter (mismatched cv) usages)
  + List.length (filter (unresolved cv) usages) <= List.length usages.
Proof.
  induction usages as [|u usages IH]; [simpl; lia|].
  cbn [filter].
  assert (H : mismatched cv u = true -> unresolved cv u = false).
  { destruct u as [[f key] rev]. unfold mismatched, unresolved.
    now destruct (resolved_revision cv key). }
  destruct (mismatched cv u) eqn:Em; [rewrite (H eq_refl)|];
    destruct (unresolved cv u); simpl; lia.
Qed.

(** X9. The loop over the usages prints four lines for each usage that
    differs from its canonical revision, in the order of the usages, and
    nothing else; it counts each such usage as one error, each usage
    without any canonical revision as one warning, and no usage twice. *)
Theorem loop_accounting :
  forall content usages errors warnings out,
    let cv := parse_config_text content in
    let e := List.length (filter (mismatched cv) usages) in
    let w := List.length (filter (unresolved cv) usages) in
    for_each usages (errors, warnings) (reconcile_usage cv) out
    = ((out ++ flat_map (diagnostic cv) usages)%list,
       Returned (errors + e, warnings + w))
    /\ List.length (flat_map (diagnostic cv) usages) = 4 * e
    /\ e + w <= List.length usages.
Proof.
  intros content usages errors warnings out cv e w.
  split; [|split].
  - apply for_each_usages. apply parse_config_text_ok.
  - apply diagnostics_length.
  - apply mismatched_or_unresolved.
Qed.

(** X10. A run whose config gives at least one canonical version prints its
    first line, the two counts, the diagnostics in the order of the usages
    and one summary; it returns when no usage differs and exits with
    status 1 otherwise. *)
Theorem report_structure :
  forall w content,
    config_file w = Some content ->
    parse_config_text content <> Dict.empty ->
    let cv := parse_config_text content in
    let usages := scan_markdown_files (guide_files w) in
    let errors := List.length (filter (mismatched cv) usages) in
    let warnings := List.length (filter (unresolved cv) usages) in
    main w []
    = (([banner_line; loaded_line (List.length cv); found_line (List.length usages)]
        ++ flat_map (diagnostic cv) usages ++ summary errors warnings)%list,
       if (errors =? 0)%nat then Returned tt else Exited 1%Z).
Proof.
  intros w content Hc Hne. cbv zeta.
  unfold main, parse_pre_commit_config. rewrite Hc.
  unfold bind at 1. unfold print at 1. unfold bind at 1. unfold ret at 1.
  destruct (Dict.is_empty (parse_config_text content)) eqn:Ee.
  { destruct (parse_config_text content); [now elim Hne | discriminate]. }
  unfold bind at 1. unfold print at 1. unfold bind at 1. unfold print at 1.
  rewrite (reconcile_eq _ _ _ (parse_config_text_ok content)). cbv zeta.
  unfold summary.
  destruct (List.length _ =? 0)%nat; reflexivity.
Qed.

Lemma report_structure_witness :
  main sample_world []
  = ([banner_line; loaded_line 1; found_line 2;
      "MISMATCH in guides/a.md:"; "  Tool: psf/black";
      "  Guide says:  24.3.0"; "  Config has:  24.4.0";
      failure_line 1], Exited 1%Z).
Proof.
  rewrite (report_structure sample_world black_config eq_refl);
    [reflexivity | discriminate].
Defined.

(** X11. The lookup [canonical_versions[possible_match]] never fails: the
    key that the fuzzy fallback has found is a key of the map, so no run,
    among those whose files are read as text, ends by [KeyError]. *)
Theorem main_no_key_error :
  forall w out, snd (main w out) <> Raised "KeyError".
Proof.
  intros w out. unfold main, parse_pre_commit_config.
  destruct (config_file w) as [content|]; [|discriminate].
  unfold bind at 1. unfold print at 1. unfold bind at 1. unfold ret at 1.
  destruct (Dict.is_empty (parse_config_text content)); [discriminate|].
  unfold bind at 1. unfold print at 1. unfold bind at 1. unfold print at 1.
  rewrite (reconcile_eq _ _ _ (parse_config_text_ok content)). cbv zeta.
  destruct (List.length _ =? 0)%nat; discriminate.
Qed.

(** X12. A usage whose identity is empty is compared with the first entry
    of the canonical map: every key ends with the empty text, so the fuzzy
    fallback stops at the first key. *)
Theorem empty_identity_meets_first_entry :
  forall content k v rest file_path rev errors warnings out,
    parse_config_text content = (k, v) :: rest ->
    reconcile_usage (parse_config_text content) (errors, warnings)
                    (file_path, "", rev) out
    = if rev =? v
      then (out, Returned (errors, warnings))
      else ((out ++ fuzzy_diagnostic file_path "" k rev v)%list,
            Returned (errors + 1, warnings)).
Proof.
  intros content k v rest file_path rev errors warnings out E.
  pose proof (parse_config_text_ok content) as Hok.
  rewrite (reconcile_usage_eq _ errors warnings file_path "" rev out Hok).
  assert (Hg : Dict.get (parse_config_text content) "" = None).
  { apply DictFacts.get_none_iff. intros Hin.
    now apply (key_nonempty _ _ Hok Hin). }
  assert (Hp : possible_match (parse_config_text content) "" = Some k).
  { unfold possible_match. rewrite E. cbn [Dict.keys map fst find].
    assert (Hs : Py.endswith k "" = true) by (apply endswith_iff; exists k;
                                              now rewrite append_nil_r).
    now rewrite Hs, orb_true_r. }
  assert (Hk : Dict.get (parse_config_text content) k = Some v).
  { rewrite E. cbn [Dict.get]. now rewrite String.eqb_refl. }
  unfold diagnostic, mismatched, unresolved, resolved_revision.
  rewrite Hg, Hp, Hk.
  destruct (rev =? v); cbn [negb]; now rewrite ?app_nil_r, ?Nat.add_0_r.
Qed.

Lemma empty_identity_meets_first_entry_witness :
  reconcile_usage (parse_config_text black_config) (0, 0)
                  ("guides/a.md", "", "1.0") []
  = if "1.0" =? "24.4.0"
    then ([], Returned (0, 0))
    else (([] ++ fuzzy_diagnostic "guides/a.md" "" "psf/black" "1.0" "24.4.0")%list,
          Returned (0 + 1, 0)).
Proof.
  apply (empty_identity_meets_first_entry black_config "psf/black" "24.4.0" []).
  reflexivity.
Defined.

End RunFacts.

Module ScannerMore.
Import Re ReSpec ReFacts ReSemantics FinditerFacts ScannerClaims EntryFacts.

Lemma block_has_line_feed segs rest :
  is_block segs -> all_in dot (matched segs ++ rest) = false.
Proof.
  intros (ws1 & value & gap1 & gap2 & ws2 & token & -> & _).
  cbn [matched fold_right]. rewrite !append_assoc.
  change ("repo:" ++ ws1 ++ value ++ gap1 ++ String LF "" ++ gap2 ++ "rev:"
                  ++ ws2 ++ token ++ "" ++ rest)
    with ("repo:" ++ (ws1 ++ (value ++ (gap1 ++ String LF (gap2 ++ "rev:"
                  ++ ws2 ++ token ++ "" ++ rest))))).
  rewrite !all_in_append. cbn [all_in].
  assert (E : dot LF = false) by reflexivity. rewrite E.
  now rewrite !andb_false_r.
Qed.

Lemma no_line_feed_no_match t :
  all_in dot t = true -> match_here block_pattern t = None.
Proof.
  intros H. destruct (match_here block_pattern t) as [[segs rest]|] eqn:E;
    [|reflexivity].
  apply match_here_matches in E as [Ht HM]. cbn [fst snd] in Ht, HM.
  apply block_matches in HM. rewrite Ht, (block_has_line_feed _ _ HM) in H.
  discriminate.
Qed.

Lemma no_line_feed_no_occurrence : forall s skip,
  all_in dot s = true -> finditer_from block_pattern skip s = [].
Proof.
  induction s as [|c s IH]; intros skip H; [reflexivity|].
  cbn [finditer_from]. pose proof H as H'. simpl in H'.
  apply andb_prop in H' as [_ Hs].
  destruct skip; [|now apply IH].
  rewrite (no_line_feed_no_match _ H). now apply IH.
Qed.

(** X7. A document without a line feed gives no usage: a reference and its
    revision on one line are not a block. *)
Theorem one_line_document_yields_nothing :
  forall md_file content,
    all_in Re.dot content = true -> scan_text md_file content = [].
Proof.
  intros md_file content H. unfold scan_text, finditer.
  now rewrite no_line_feed_no_occurrence.
Qed.

Lemma one_line_document_yields_nothing_witness :
  scan_text "guides/a.md" "repo: https://github.com/psf/black rev: 24.4.0" = [].
Proof. apply one_line_document_yields_nothing. reflexivity. Defined.

End ScannerMore.

Module BlockFacts.
Import Re ReSpec ReFacts ReSemantics FinditerFacts ScannerClaims.
Import NormalizeFacts NormalizeMore PrefixFacts EntryFacts.

Lemma better_same i p a l l' :
  l' = l \/ better p l l' ->
  a :: l' = a :: l \/ better (i :: p) (a :: l) (a :: l').
Proof.
  intros [-> | H]; [now left|]. right. simpl. left. now split.
Qed.

Lemma better_longer cls n p a a' l l' :
  String.length a' < String.length a ->
  better (Rep cls n true :: p) (a :: l) (a' :: l').
Proof. intros H. simpl. now right. Qed.

Lemma better_shorter cls n p a a' l l' :
  String.length a < String.length a' ->
  better (Rep cls n false :: p) (a :: l) (a' :: l').
Proof. intros H. simpl. now right. Qed.

(** A text that [rstrip] leaves whole ends with a character that is not
    whitespace. *)
Lemma rstrip_last v :
  v <> "" -> Py.rstrip v = v ->
  exists init z, v = init ++ String z "" /\ py_isspace z = false.
Proof.
  induction v as [|c v IH]; intros Hne H; [congruence|].
  destruct v as [|c' v'].
  - exists "", c. split; [reflexivity|].
    simpl in H. destruct (py_isspace c); [discriminate | reflexivity].
  - apply rstrip_tail in H.
    destruct (IH ltac:(discriminate) H) as (init & z & Hv & Hz).
    exists (String c init), z. split; [|exact Hz]. simpl. now rewrite <- Hv.
Qed.

Lemma suffix_last a : forall m init z,
  a ++ m = init ++ String z "" -> m <> "" -> exists m', m = m' ++ String z "".
Proof.
  induction a as [|c a IH]; intros m init z H Hm; [now exists init|].
  destruct init as [|d init].
  - simpl in H. inversion H as [[Hc Ha]].
    destruct a; [simpl in Ha; congruence | discriminate].
  - inversion H; subst. now apply (IH m init z).
Qed.

Lemma nonspace_tail a m init z :
  a ++ m = init ++ String z "" -> m <> "" -> py_isspace z = false ->
  all_in space m = false.
Proof.
  intros H Hm Hz. destruct (suffix_last a m init z H Hm) as [m' ->].
  rewrite all_in_append. simpl. unfold space. rewrite Hz.
  now rewrite andb_false_r.
Qed.

Lemma char_not_space_r : py_isspace "r" = false.
Proof. reflexivity. Qed.

Lemma block_match ws1 value ind ws2 tok :
  all_in space ws1 = true -> ws1 <> "" ->
  value <> "" -> all_in dot value = true -> Py.strip value = value ->
  all_in space ind = true -> all_in dot ind = true ->
  all_in space ws2 = true -> ws2 <> "" ->
  is_token tok ->
  match_here block_pattern
    ("repo:" ++ ws1 ++ value ++ String LF (ind ++ "rev:" ++ ws2 ++ tok))
  = Some (["repo:"; ws1; value; ""; String LF ""; ind; "rev:"; ws2; tok], "").
Proof.
  intros Hws1 Hws1ne Hv Hvdot Hvstrip Hind Hinddot Hws2 Hws2ne [Htokne Htok].
  destruct (strip_fixed value Hvstrip) as [Hvl Hvr].
  destruct (first_nonspace value Hv Hvl) as (c & vt & Ev & Hc).
  destruct (rstrip_last value Hv Hvr) as (init & z & Einit & Hz).
  destruct tok as [|tc tt] eqn:Etok; [congruence|].
  assert (Htc : py_isspace tc = false).
  { simpl in Htok. apply andb_prop in Htok as [H _].
    unfold nonspace in H. now apply negb_true_iff in H. }
  rewrite <- Etok in *.
  apply match_here_iff. split; [|split].
  - cbn [matched fold_right append]. now rewrite !append_nil_r.
  - apply block_matches. exists ws1, value, "", ind, ws2, tok.
    repeat split; auto.
  - intros segs' rest' Hs HM. apply block_matches in HM.
    destruct HM as (b1 & b2 & b3 & b5 & b7 & b8 & -> & [Hb1 _] & [Hb2 Hb2ne]
                    & Hb3 & Hb5 & [Hb7 _] & [Hb8ne Hb8]).
    cbn [matched fold_right] in Hs. rewrite !append_assoc in Hs.
    apply (append_cancel_l "repo:") in Hs.
    apply better_same.
    (* the whitespace after [repo:] *)
    assert (L1 : String.length b1 <= String.length ws1).
    { apply (run_bounded space ws1 c
               (vt ++ String LF (ind ++ "rev:" ++ ws2 ++ tok)) b1
               (b2 ++ b3 ++ String LF "" ++ b5 ++ "rev:" ++ b7 ++ b8 ++ "" ++ rest'));
        [|exact Hb1 | exact Hc].
      rewrite <- Hs, Ev. reflexivity. }
    destruct (Nat.eq_dec (String.length b1) (String.length ws1)) as [E1|N1];
      [|right; apply better_longer; lia].
    symmetry in Hs. destruct (append_same_length _ _ _ _ Hs E1) as [-> Hs2].
    clear Hs E1 L1. apply better_same.
    (* the value *)
    assert (L2 : String.length value <= String.length b2).
    { destruct (FinditerFacts.append_split _ _ _ _ Hs2)
        as [(m & Hm & Hm2) | (m & -> & _)]; [|rewrite length_append; lia].
      destruct m as [|d m]; [rewrite append_nil_r in Hm; rewrite Hm; lia|].
      exfalso.
      assert (Hsp : all_in space (String d m) = false).
      { apply (nonspace_tail b2 (String d m) init z);
          [now rewrite <- Hm, Einit | discriminate | exact Hz]. }
      assert (Hdm : all_in dot (String d m) = true).
      { rewrite Hm, all_in_append in Hvdot. now apply andb_prop in Hvdot as [_ H]. }
      symmetry in Hm2.
      destruct (FinditerFacts.append_split _ _ _ _ Hm2)
        as [(k & Hk & _) | (k & Hk & Hk2)].
      - rewrite Hk, all_in_append in Hb3. apply andb_prop in Hb3 as [Hb3 _].
        congruence.
      - (* the gap begins inside the rest of the value *)
        rewrite Hk, all_in_append in Hdm. apply andb_prop in Hdm as [_ Hdk].
        destruct k as [|e k].
        + rewrite append_nil_r in Hk. rewrite Hk in Hsp. congruence.
        + cbn [append] in Hk2. inversion Hk2; subst e. discriminate. }
    destruct (Nat.eq_dec (String.length value) (String.length b2)) as [E2|N2];
      [|right; apply better_shorter; lia].
    destruct (append_same_length _ _ _ _ Hs2 (eq_sym E2)) as [-> Hs3].
    clear Hs2 E2 L2.
    apply better_same.
    (* the whitespace before the line feed *)
    assert (E3 : b3 = "").
    { destruct b3 as [|d b3]; [reflexivity|]. exfalso.
      cbn [append] in Hs3. inversion Hs3 as [[Hd Hrest]].
      simpl in Hb3. apply andb_prop in Hb3 as [_ Hb3].
      assert (Hrest' : ind ++ String "r" ("ev:" ++ ws2 ++ tok)
                       = (b3 ++ String LF "")
                           ++ (b5 ++ "rev:" ++ b7 ++ b8 ++ "" ++ rest'))
        by (rewrite append_assoc; symmetry; exact Hrest).
      assert (Hlf : forall k, all_in dot ((b3 ++ String LF "") ++ k) = false).
      { intros k. rewrite !all_in_append. cbn [all_in].
        assert (E : dot LF = false) by reflexivity.
        now rewrite E, andb_false_r. }
      assert (L : String.length (b3 ++ String LF "") <= String.length ind).
      { apply (run_bounded space ind "r" ("ev:" ++ ws2 ++ tok) (b3 ++ String LF "")
                 (b5 ++ "rev:" ++ b7 ++ b8 ++ "" ++ rest'));
          [exact Hrest' | | reflexivity].
        rewrite all_in_append, Hb3. reflexivity. }
      destruct (FinditerFacts.append_split _ _ _ _ Hrest')
        as [(k & Hk & _) | (k & Hk & _)].
      - apply (f_equal String.length) in Hk as Hk'.
        rewrite (length_append ind k) in Hk'.
        destruct k as [|e k]; [|simpl in Hk'; lia].
        rewrite append_nil_r in Hk. rewrite <- Hk in Hinddot.
        specialize (Hlf ""). rewrite append_nil_r in Hlf. congruence.
      - rewrite Hk in Hinddot. rewrite (Hlf k) in Hinddot. discriminate. }
    subst b3. cbn [append] in Hs3. inversion Hs3 as [Hs4]. clear Hs3.
    apply better_same. apply better_same.
    (* the indentation *)
    assert (L5 : String.length b5 <= String.length ind).
    { apply (run_bounded space ind "r" ("ev:" ++ ws2 ++ tok) b5 _ (eq_sym Hs4));
        [exact Hb5 | reflexivity]. }
    destruct (Nat.eq_dec (String.length b5) (String.length ind)) as [E5|N5];
      [|right; apply better_longer; lia].
    destruct (append_same_length _ _ _ _ Hs4 E5) as [-> Hs5].
    clear Hs4 E5 L5.
    apply better_same. apply better_same.
    apply (append_cancel_l "rev:") in Hs5.
    (* the whitespace after [rev:] *)
    assert (L7 : String.length b7 <= String.length ws2).
    { apply (run_bounded space ws2 tc tt b7 (b8 ++ rest'));
        [|exact Hb7 | exact Htc].
      rewrite Hs5, Etok. reflexivity. }
    destruct (Nat.eq_dec (String.length b7) (String.length ws2)) as [E7|N7];
      [|right; apply better_longer; lia].
    destruct (append_same_length _ _ _ _ Hs5 E7) as [-> Hs6].
    clear Hs5 E7 L7.
    apply better_same.
    (* the token *)
    assert (L8 : String.length b8 <= String.length tok)
      by (rewrite <- Hs6, length_append; lia).
    destruct (Nat.eq_dec (String.length b8) (String.length tok)) as [E8|N8];
      [|right; apply better_longer; lia].
    left. f_equal.
    rewrite <- (append_nil_r tok) in Hs6.
    now destruct (append_same_length _ _ _ _ Hs6 E8).
Qed.

End BlockFacts.

Module QuoteFacts.
Import Re ReSpec ReFacts ReSemantics FinditerFacts ScannerClaims.
Import ParserFacts PrefixFacts EntryFacts BlockFacts ReconcilerFacts ReconcilerClaims.

Lemma no_break_inv c :
  no_break c = true -> Ascii.eqb c CR = false /\ py_islinebreak c = false.
Proof.
  unfold no_break. intros H. apply negb_true_iff in H. split; [|exact H].
  apply Ascii.eqb_neq. intros ->. discriminate.
Qed.

Lemma splitlines_one_line b :
  all_in no_break b = true -> b <> "" -> Py.splitlines b = [b].
Proof.
  induction b as [|c b IH]; intros H Hne; [congruence|].
  simpl in H. apply andb_prop in H as [Hc Hb].
  destruct (no_break_inv c Hc) as [E1 E2].
  cbn [Py.splitlines]. rewrite E1, E2.
  destruct b as [|c' b']; [reflexivity|].
  rewrite IH by (assumption || discriminate). reflexivity.
Qed.

Lemma splitlines_two_lines a b :
  all_in no_break a = true -> all_in no_break b = true -> b <> "" ->
  Py.splitlines (a ++ String LF b) = [a; b].
Proof.
  intros Ha Hb Hne. induction a as [|c a IH].
  - cbn [append Py.splitlines].
    change (Ascii.eqb LF CR) with false. change (py_islinebreak LF) with true.
    cbv iota. now rewrite splitlines_one_line.
  - simpl in Ha. apply andb_prop in Ha as [Hc Ha].
    destruct (no_break_inv c Hc) as [E1 E2].
    cbn [append Py.splitlines]. rewrite E1, E2, (IH Ha). reflexivity.
Qed.

Lemma finditer_prefix p pre t :
  starts_with_r p -> all_in not_r pre = true ->
  finditer p (pre ++ t) = finditer p t.
Proof.
  intros Hp. induction pre as [|c pre IH]; intros H; [reflexivity|].
  simpl in H. apply andb_prop in H as [Hc Hpre]. cbn [append].
  rewrite finditer_miss by now apply Hp. now apply IH.
Qed.

(** The one match of the block pattern in a quoted block. *)
Lemma finditer_guide_block text value tok :
  guide_block_text text value tok ->
  exists ws1 ind ws2,
    finditer block_pattern text
    = [["repo:"; ws1; value; ""; String LF ""; ind; "rev:"; ws2; tok]].
Proof.
  intros (pre & ws1 & ind & ws2 & -> & Hpre & [Hws1 Hws1ne] & (Hv & Hvdot & Hvstrip)
          & [Hind Hinddot] & [Hws2 Hws2ne] & Htok).
  exists ws1, ind, ws2.
  rewrite (finditer_prefix block_pattern pre _ (lit_starts_with_r _ _) Hpre).
  rewrite (finditer_hit block_pattern _ _ "" block_never_empty
             (block_match ws1 value ind ws2 tok Hws1 Hws1ne Hv Hvdot Hvstrip
                          Hind Hinddot Hws2 Hws2ne Htok)).
  reflexivity.
Qed.

Lemma rev_entry_line_nonempty l tok : rev_entry_line l tok -> l <> "".
Proof.
  intros (pre & ws & t & -> & _) H.
  apply (f_equal String.length) in H. rewrite !length_append in H.
  simpl in H. lia.
Qed.

(** The two lines of an entry of the config, as the loop meets them. *)
Lemma lines_of_config_entry text value tok :
  config_entry_text text value tok ->
  exists l_repo l_rev,
    Py.splitlines text = [l_repo; l_rev]
    /\ repo_line l_repo = Some (normalize_repo_url value)
    /\ repo_line l_rev = None /\ rev_token l_rev = Some tok.
Proof.
  intros (l_repo & l_rev & -> & Hrepo & Hrev & H1 & H2).
  exists l_repo, l_rev.
  rewrite (splitlines_two_lines _ _ H1 H2 (rev_entry_line_nonempty _ _ Hrev)).
  apply repo_entry_line_sets in Hrepo.
  apply rev_entry_line_token in Hrev as [Hnone Htok]. now repeat split.
Qed.

End QuoteFacts.

Module QuoteClaims.
Import ParserFacts ReconcilerFacts ReconcilerClaims QuoteFacts.

(** X8. The scanner reads a block that a guide quotes as one usage, with
    the identity of the quoted reference and the quoted token. *)
Theorem scanner_reads_quoted_block :
  forall md_file text value tok,
    guide_block_text text value tok ->
    scan_text md_file text = [(md_file, normalize_repo_url value, tok)].
Proof.
  intros md_file text value tok H.
  destruct (finditer_guide_block text value tok H) as (ws1 & ind & ws2 & E).
  destruct H as (_ & _ & _ & _ & _ & _ & _ & (_ & _ & Hvstrip) & _ & _ & [_ Hall]).
  unfold scan_text. rewrite E. cbn [map].
  unfold usage_of_match, Re.group. cbn [nth].
  now rewrite Hvstrip, (Tokens.strip_token tok Hall).
Qed.

Lemma scanner_reads_quoted_block_witness :
  scan_text "guides/a.md" quoted_block = [("guides/a.md", "psf/black", "24.4.0")].
Proof.
  apply (scanner_reads_quoted_block "guides/a.md" quoted_block
           "https://github.com/psf/black" "24.4.0").
  exists "    - ", "  ", "      ", " ".
  repeat split; try reflexivity; discriminate.
Defined.

(** X5. A config that is one entry, a repository line and a revision
    line, gives the map with that one identity bound to that token. *)
Theorem config_entry_parses :
  forall text value tok,
    config_entry_text text value tok ->
    normalize_repo_url value <> "" ->
    parse_config_text text = [(normalize_repo_url value, tok)].
Proof.
  intros text value tok H Hid.
  destruct (lines_of_config_entry text value tok H)
    as (l_repo & l_rev & E & Hrepo & Hnone & Htok).
  unfold parse_config_text. rewrite E.
  rewrite (repo_then_rev _ _ l_repo l_rev _ tok Hrepo Hnone Htok).
  apply truthy_ne in Hid. now rewrite Hid.
Qed.

Lemma commented_entry_is_entry :
  config_entry_text commented_entry "https://github.com/psf/black" "24.4.0".
Proof.
  exists "# - repo: https://github.com/psf/black", "#   rev: 24.4.0  # frozen".
  split; [reflexivity|]. split; [|split; [|split; reflexivity]].
  - exists "# - ", " ". repeat split; try reflexivity; discriminate.
  - exists "#   ", " ", "  # frozen".
    repeat split; try reflexivity; try discriminate.
    right. exists " "%char, " # frozen". split; reflexivity.
Defined.

Lemma config_entry_parses_witness :
  parse_config_text commented_entry = [("psf/black", "24.4.0")].
Proof.
  apply (config_entry_parses commented_entry "https://github.com/psf/black"
           "24.4.0" commented_entry_is_entry).
  vm_compute. discriminate.
Defined.

(** X13. When the config is one entry and the only guide quotes the same
    reference: if the identity of the reference is not empty, the run
    succeeds with status 0 when the guide has the token of the config, and
    otherwise prints one diagnostic with both tokens and ends with status
    1; if the identity is empty, the config gives no canonical version and
    the run ends with status 1 before the guide is compared. *)
Theorem quoted_entry_run :
  forall w ctext gtext md_file value tok tok',
    config_file w = Some ctext ->
    guide_files w = [(md_file, gtext)] ->
    config_entry_text ctext value tok ->
    guide_block_text gtext value tok' ->
    run_main w =
    if Py.truthy (normalize_repo_url value)
    then
      if tok' =? tok
      then ([banner_line; loaded_line 1; found_line 1; success_line], 0%Z)
      else (([banner_line; loaded_line 1; found_line 1]
             ++ exact_diagnostic md_file (normalize_repo_url value) tok' tok
             ++ [failure_line 1])%list, 1%Z)
    else ([banner_line; "No versions found in config file."], 1%Z).
Proof.
  intros w ctext gtext md_file value tok tok' Hc Hg Hcfg Hguide.
  destruct (lines_of_config_entry ctext value tok Hcfg)
    as (l_repo & l_rev & E & Hrepo & Hnone & Htok).
  destruct (Py.truthy (normalize_repo_url value)) eqn:Et.
  - assert (Ecv : parse_config_text ctext = [(normalize_repo_url value, tok)]).
    { unfold parse_config_text. rewrite E.
      rewrite (repo_then_rev _ _ l_repo l_rev _ tok Hrepo Hnone Htok).
      now rewrite Et. }
    assert (Eus : scan_markdown_files (guide_files w)
                  = [(md_file, normalize_repo_url value, tok')]).
    { rewrite Hg. unfold scan_markdown_files. cbn [flat_map fst snd].
      rewrite app_nil_r.
      destruct (finditer_guide_block gtext value tok' Hguide)
        as (ws1 & ind & ws2 & Ef).
      destruct Hguide
        as (_ & _ & _ & _ & _ & _ & _ & (_ & _ & Hvstrip) & _ & _ & [_ Hall]).
      unfold scan_text. rewrite Ef. cbn [map].
      unfold usage_of_match, Re.group. cbn [nth].
      now rewrite Hvstrip, (Tokens.strip_token tok' Hall). }
    pose proof (parse_config_text_ok ctext) as Hok.
    assert (Hmain :
      main w [] =
      if tok' =? tok
      then ([banner_line; loaded_line 1; found_line 1; success_line], Returned tt)
      else (([banner_line; loaded_line 1; found_line 1]
             ++ exact_diagnostic md_file (normalize_repo_url value) tok' tok
             ++ [failure_line 1])%list, Exited 1%Z)).
    { unfold main, parse_pre_commit_config. rewrite Hc.
      unfold bind at 1. unfold print at 1. unfold bind at 1. unfold ret at 1.
      rewrite Eus. rewrite Ecv in *. cbn [Dict.is_empty].
      unfold bind at 1. unfold print at 1. unfold bind at 1. unfold print at 1.
      rewrite (reconcile_eq _ _ _ Hok). cbv zeta.
      cbn [filter flat_map].
      unfold mismatched, unresolved, diagnostic, resolved_revision.
      cbn [Dict.get]. rewrite String.eqb_refl.
      destruct (tok' =? tok); reflexivity. }
    unfold run_main. rewrite Hmain. destruct (tok' =? tok); reflexivity.
  - assert (Ecv : parse_config_text ctext = Dict.empty).
    { unfold parse_config_text. rewrite E.
      rewrite (repo_then_rev _ _ l_repo l_rev _ tok Hrepo Hnone Htok).
      now rewrite Et. }
    unfold run_main, main, parse_pre_commit_config. rewrite Hc.
    unfold bind, print, ret, sys_exit. rewrite Ecv. reflexivity.
Qed.

Lemma quoted_entry_run_witness :
  run_main {| config_path := "/p/c.yaml";
              config_file := Some commented_entry;
              guide_files := [("guides/a.md", quoted_block)] |}
  = if Py.truthy (normalize_repo_url "https://github.com/psf/black")
    then
      if "24.4.0" =? "24.4.0"
      then ([banner_line; loaded_line 1; found_line 1; success_line], 0%Z)
      else (([banner_line; loaded_line 1; found_line 1]
             ++ exact_diagnostic "guides/a.md"
                  (normalize_repo_url "https://github.com/psf/black")
                  "24.4.0" "24.4.0"
             ++ [failure_line 1])%list, 1%Z)
    else ([banner_line; "No versions found in config file."], 1%Z).
Proof.
  apply (quoted_entry_run _ commented_entry quoted_block "guides/a.md"
           "https://github.com/psf/black" "24.4.0" "24.4.0");
    try reflexivity.
  - exact commented_entry_is_entry.
  - exists "    - ", "  ", "      ", " ".
    repeat split; try reflexivity; discriminate.
Defined.

End QuoteClaims.
